(** * Architect: gradient computation for differentiable architecture search

    A shallow embedding of [architect.py]: the two classes
    [DARTSArchitect] and [BinaryGateArchitect], their [virtual_step],
    [compute_hessian] and [step] methods, and the renormalisation of the
    architecture logits.

    Conventions of the embedding.
    - A torch scalar is a [tnum]: an exact real number or one of the IEEE
      special values [+inf], [-inf], [nan].  Arithmetic is exact on finite
      values (rounding, overflow and signed zeros are not represented) and
      follows IEEE 754 on the special values, so [0.01 / 0] is [+inf],
      [inf * 0] is [nan] and [log 0] is [-inf], as torch computes them.
      A [tnum] expression names the operations the code performs, in their
      order.  Laws of the real numbers that floats do not obey (a sum and
      a difference that cancel, for one) are not stated of the code: where
      a statement depends on rounding, the same operations are evaluated
      in binary32, torch's default dtype ([f32_arith]).
    - A tensor is the list of its entries in [view(-1)] order.
    - Tensors are Python objects: they live in a store indexed by identity
      ([loc]); in-place operations ([+=], [-=], [copy_]) update the store.
    - A method is a computation in a state-and-exception monad over the
      store; a raised exception keeps the store as it was when raised.
    - The loss of the searched network, automatic differentiation, the two
      optimizers and the operation sampler are collaborators outside
      [architect.py]; they enter as section variables.  A gradient returned
      by automatic differentiation is a tensor or [None] (parameter not
      used in the graph).
    - Devices ([.to(p.device)]) do not change values and are not
      represented.  Every in-place update of [architect.py] is inside
      [torch.no_grad()] except the one of the renormalisation
      ([p[i] += ...]); there torch refuses the write with [RuntimeError]
      when the tensor is a leaf that requires grad ([requires_grad]). *)

From Stdlib Require Import Reals Lra ROrderedType.
From Stdlib Require SpecFloat.
From stdpp Require Import gmap strings list functions.

Set Default Proof Using "Type".

(** ** Scalars *)

(** The value of a torch scalar expression: the real number that the
    operations of the expression denote, or an IEEE special value. *)
Inductive tnum : Type :=
| Fin (r : R)
| PInf
| NInf
| NaN.

Definition sign_of (r : R) : comparison := Rcompare r 0%R.

Definition is_finite (x : tnum) : bool :=
  match x with Fin _ => true | _ => false end.

Definition tneg (x : tnum) : tnum :=
  match x with
  | Fin r => Fin (- r)%R
  | PInf => NInf
  | NInf => PInf
  | NaN => NaN
  end.

Definition tadd (x y : tnum) : tnum :=
  match x, y with
  | Fin a, Fin b => Fin (a + b)%R
  | NaN, _ | _, NaN => NaN
  | PInf, NInf | NInf, PInf => NaN
  | PInf, _ | _, PInf => PInf
  | NInf, _ | _, NInf => NInf
  end.

Definition tsub (x y : tnum) : tnum :=
  match x, y with
  | Fin a, Fin b => Fin (a - b)%R
  | _, _ => tadd x (tneg y)
  end.

(** [signed_inf c] is the infinity of sign [c]; a zero sign gives [nan]
    (as in [inf * 0]). *)
Definition signed_inf (c : comparison) : tnum :=
  match c with Gt => PInf | Lt => NInf | Eq => NaN end.

Definition flip (c : comparison) : comparison := CompOpp c.

Definition tmul (x y : tnum) : tnum :=
  match x, y with
  | Fin a, Fin b => Fin (a * b)%R
  | NaN, _ | _, NaN => NaN
  | PInf, Fin b | Fin b, PInf => signed_inf (sign_of b)
  | NInf, Fin b | Fin b, NInf => signed_inf (flip (sign_of b))
  | PInf, PInf | NInf, NInf => PInf
  | PInf, NInf | NInf, PInf => NInf
  end.

Definition tdiv (x y : tnum) : tnum :=
  match x, y with
  | Fin a, Fin b =>
      match sign_of b with
      | Eq => signed_inf (sign_of a)
      | _ => Fin (a / b)%R
      end
  | NaN, _ | _, NaN => NaN
  | Fin _, (PInf | NInf) => Fin 0%R
  | (PInf | NInf), (PInf | NInf) => NaN
  | PInf, Fin b => match sign_of b with Lt => NInf | _ => PInf end
  | NInf, Fin b => match sign_of b with Lt => PInf | _ => NInf end
  end.

Definition tsqrt (x : tnum) : tnum :=
  match x with
  | Fin r => match sign_of r with Lt => NaN | _ => Fin (sqrt r) end
  | PInf => PInf
  | NInf | NaN => NaN
  end.

Definition texp (x : tnum) : tnum :=
  match x with
  | Fin r => Fin (exp r)
  | PInf => PInf
  | NInf => Fin 0%R
  | NaN => NaN
  end.

Definition tlog (x : tnum) : tnum :=
  match x with
  | Fin r =>
      match sign_of r with
      | Lt => NaN
      | Eq => NInf
      | Gt => Fin (ln r)
      end
  | PInf => PInf
  | NInf | NaN => NaN
  end.

(** ** Tensors *)

Abbreviation tensor := (list tnum).

(** Element-wise operations between tensors of one shape, and between a
    scalar (a Python float or a 0-dim tensor) and a tensor.  A gradient has
    the shape of its parameter, so the operands below have one length;
    torch rejects operands whose shapes do not broadcast, a case the lists
    do not represent ([zip_with] would keep the common prefix). *)
Definition t_add (p q : tensor) : tensor := zip_with tadd p q.
Definition t_sub (p q : tensor) : tensor := zip_with tsub p q.
Definition s_mul (c : tnum) (t : tensor) : tensor := tmul c <$> t.
Definition t_mul_s (t : tensor) (c : tnum) : tensor := (fun x => tmul x c) <$> t.
Definition t_div_s (t : tensor) (c : tnum) : tensor := (fun x => tdiv x c) <$> t.
Definition s_add (c : tnum) (t : tensor) : tensor := tadd c <$> t.
Definition t_sub_s (t : tensor) (c : tnum) : tensor := (fun x => tsub x c) <$> t.

(** [torch.sum] and [Tensor.norm()] (the 2-norm of the flattened tensor). *)
Definition t_sum (t : tensor) : tnum := foldr tadd (Fin 0%R) t.
Definition t_norm (t : tensor) : tnum := tsqrt (t_sum ((fun x => tmul x x) <$> t)).

(** ** The arithmetic of [compute_hessian], for any scalars

    The lines of [compute_hessian] that compute [eps] and update one
    weight [p] with its direction [d], for an arbitrary scalar type with
    its operations.  They are instantiated with [tnum] and with binary32
    numbers. *)
Record arith (T : Type) : Type := Arith {
  a_add : T -> T -> T;
  a_sub : T -> T -> T;
  a_mul : T -> T -> T;
  a_div : T -> T -> T;
  a_sqrt : T -> T;
  a_zero : T;          (* [0] *)
  a_two : T;           (* [2.] *)
  a_hundredth : T;     (* [0.01] *)
}.
Arguments a_add {T} _.
Arguments a_sub {T} _.
Arguments a_mul {T} _.
Arguments a_div {T} _.
Arguments a_sqrt {T} _.
Arguments a_zero {T} _.
Arguments a_two {T} _.
Arguments a_hundredth {T} _.

Section Passes.
Context {T : Type} (A : arith T).

(** [torch.cat(...).norm()] and [eps = 0.01 / norm]. *)
Definition norm_of (flat : list T) : T :=
  a_sqrt A (foldr (a_add A) (a_zero A) ((fun x => a_mul A x x) <$> flat)).
Definition eps_of (flat : list T) : T := a_div A (a_hundredth A) (norm_of flat).

(** [p += eps * d], then [p -= 2. * eps * d], then [p += eps * d]. *)
Definition pass1 (eps : T) (p d : list T) : list T :=
  zip_with (a_add A) p (a_mul A eps <$> d).
Definition pass2 (eps : T) (p d : list T) : list T :=
  zip_with (a_sub A) (pass1 eps p d) (a_mul A (a_mul A (a_two A) eps) <$> d).
Definition pass3 (eps : T) (p d : list T) : list T :=
  zip_with (a_add A) (pass2 eps p d) (a_mul A eps <$> d).
End Passes.

Definition tnum_arith : arith tnum :=
  Arith tnum tadd tsub tmul tdiv tsqrt (Fin 0%R) (Fin 2%R) (Fin (1 / 100)%R).

(** Binary32 numbers with the IEEE 754 operations, rounding to nearest,
    ties to even: precision 24, exponent bound 128.  [0.01] is the
    binary32 number nearest to it. *)
Definition f32 : Type := SpecFloat.spec_float.
Definition f32_of_Z (z : Z) : f32 := SpecFloat.binary_normalize 24 128 z 0 false.
Definition f32_arith : arith f32 :=
  Arith f32 (SpecFloat.SFadd 24 128) (SpecFloat.SFsub 24 128) (SpecFloat.SFmul 24 128)
    (SpecFloat.SFdiv 24 128) (SpecFloat.SFsqrt 24 128)
    (SpecFloat.S754_zero false) (f32_of_Z 2)
    (SpecFloat.SFdiv 24 128 (f32_of_Z 1) (f32_of_Z 100)).

(** A Python value that is either a number or a tensor: the momentum
    buffer read with a float default, and one entry of the list returned
    by [compute_hessian] (a tensor, or the integer [0]). *)
Inductive pyval : Type :=
| PyNum (x : tnum)
| PyTensor (t : tensor).

Definition py_mul_s (v : pyval) (c : tnum) : pyval :=
  match v with
  | PyNum x => PyNum (tmul x c)
  | PyTensor t => PyTensor (t_mul_s t c)
  end.

Definition s_mul_py (c : tnum) (v : pyval) : pyval :=
  match v with
  | PyNum x => PyNum (tmul c x)
  | PyTensor t => PyTensor (s_mul c t)
  end.

Definition py_add_t (v : pyval) (g : tensor) : tensor :=
  match v with
  | PyNum x => s_add x g
  | PyTensor t => t_add t g
  end.

Definition t_sub_py (t : tensor) (v : pyval) : tensor :=
  match v with
  | PyNum x => t_sub_s t x
  | PyTensor u => t_sub t u
  end.

(** ** Store, exceptions and the monad of methods *)

Abbreviation loc := nat.

Inductive error : Type :=
| RuntimeError   (* raised by torch *)
| TypeError      (* arithmetic on [None] *)
| IndexError     (* index out of range *)
| LossError.     (* raised inside the network's loss *)

Inductive result (A : Type) : Type :=
| Ok (a : A)
| Err (e : error).
Arguments Ok {A} a.
Arguments Err {A} e.

Record world : Type := World {
  heap : loc -> tensor;                      (* values of the tensors *)
  grad : loc -> option tensor;               (* the [.grad] fields *)
  ostate : gmap loc (gmap string tensor);    (* [w_optim.state] *)
  sops : nat -> list nat;                    (* [s_op] of each NAS module *)
}.

Definition set_heap (h : loc -> tensor) (w : world) : world :=
  World h (grad w) (ostate w) (sops w).
Definition set_grads (g : loc -> option tensor) (w : world) : world :=
  World (heap w) g (ostate w) (sops w).
Definition set_ostate (o : gmap loc (gmap string tensor)) (w : world) : world :=
  World (heap w) (grad w) o (sops w).

Definition M (A : Type) : Type := world -> result A * world.

Definition ret {A} (a : A) : M A := fun w => (Ok a, w).
Definition raise {A} (e : error) : M A := fun w => (Err e, w).
Definition bind {A B} (m : M A) (f : A -> M B) : M B :=
  fun w =>
    match m w with
    | (Ok a, w') => f a w'
    | (Err e, w') => (Err e, w')
    end.

Notation "x <- m ;; k" := (bind m (fun x => k))
  (at level 100, m at next level, right associativity).
Notation "m ;; k" := (bind m (fun _ => k))
  (at level 100, right associativity).

(** [for x in l: f x] and [[f x for x in l]]; both stop at the first
    exception. *)
Fixpoint for_each {A} (f : A -> M unit) (l : list A) : M unit :=
  match l with
  | [] => ret tt
  | x :: l' => f x ;; for_each f l'
  end.

Fixpoint map_m {A B} (f : A -> M B) (l : list A) : M (list B) :=
  match l with
  | [] => ret []
  | x :: l' => y <- f x ;; ys <- map_m f l' ;; ret (y :: ys)
  end.

Definition read (l : loc) : M tensor := fun w => (Ok (heap w l), w).
Definition write (l : loc) (t : tensor) : M unit :=
  fun w => (Ok tt, set_heap (<[l := t]> (heap w)) w).
Definition modify (f : world -> world) : M unit := fun w => (Ok tt, f w).
(** A collaborator that reads the store and may raise, and one that
    updates the store unless it raises. *)
Definition call {A} (o : world -> result A) : M A := fun w => (o w, w).
Definition call_upd (o : world -> result world) : M unit :=
  fun w => match o w with Ok w' => (Ok tt, w') | Err e => (Err e, w) end.

(** [p += t], [p -= t] and [p.copy_(t)] on a stored tensor. *)
Definition iadd (p : loc) (t : tensor) : M unit :=
  x <- read p ;; write p (t_add x t).
Definition isub (p : loc) (t : tensor) : M unit :=
  x <- read p ;; write p (t_sub x t).
Definition copy_ (p : loc) (t : tensor) : M unit := write p t.

(** [alpha.grad = t]. *)
Definition set_grad (a : loc) (t : tensor) : M unit :=
  fun w => (Ok tt, set_grads (<[a := Some t]> (grad w)) w).

(** [w_optim.state[p]]: the optimizer state is a [defaultdict(dict)], so
    reading a missing key stores an empty dict under it. *)
Definition state_getitem (p : loc) : M (gmap string tensor) :=
  fun w =>
    match ostate w !! p with
    | Some d => (Ok d, w)
    | None => (Ok ∅, set_ostate (<[p := ∅]> (ostate w)) w)
    end.

(** [d.get(key, default)]. *)
Definition dict_get (d : gmap string tensor) (key : string) (default : pyval) : pyval :=
  match d !! key with
  | Some t => PyTensor t
  | None => default
  end.

(** [m.get_state('s_op')]. *)
Definition get_state (m : nat) : M (list nat) := fun w => (Ok (sops w m), w).

(** [torch.cat]: raises on an empty list of tensors. *)
Definition torch_cat (ts : list tensor) : M tensor :=
  match ts with
  | [] => raise RuntimeError
  | _ => ret (concat ts)
  end.

(** [torch.autograd.grad(loss, params)]: the collaborator [o] evaluates the
    loss and gives, for each parameter, its gradient or [None] when the
    parameter was not used in the graph.  Without [allow_unused=True] an
    unused parameter is an error. *)
Fixpoint all_defined {A} (l : list (option A)) : option (list A) :=
  match l with
  | [] => Some []
  | Some x :: l' => match all_defined l' with Some xs => Some (x :: xs) | None => None end
  | None :: _ => None
  end.

Definition autograd_grad (o : world -> result (list (option tensor))) : M (list tensor) :=
  gs <- call o ;;
  match all_defined gs with
  | Some ts => ret ts
  | None => raise RuntimeError
  end.

Definition autograd_grad_allow_unused (o : world -> result (list (option tensor)))
  : M (list (option tensor)) := call o.

(** [pdt.index_select(-1, s_op)] on a vector of logits. *)
Definition index_select (t : tensor) (idx : list nat) : M tensor :=
  match mapM (fun i => t !! i) idx with
  | Some pp => ret pp
  | None => raise IndexError
  end.

(** [p[i] += x] outside [torch.no_grad()].  [p[i]] raises [IndexError]
    for an index out of range; it is a view of [p], and torch refuses an
    in-place operation on a view of a leaf tensor that requires grad
    ([RuntimeError]); otherwise the entry is updated. *)
Definition iadd_at (requires_grad : loc -> bool) (p : loc) (i : nat) (x : tnum)
    : M unit :=
  t <- read p ;;
  match t !! i with
  | Some v =>
      if requires_grad p then raise RuntimeError
      else write p (<[i := tadd v x]> t)
  | None => raise IndexError
  end.

(** The parameters of a network, by identity: [weights()],
    [weights(check_grad=True)] and [alphas()].  The sampled subset is fixed
    between [sample_ops] and [reset_ops], so within one step
    [weights(check_grad=True)] is one list. *)
Record net : Type := Net {
  weights : list loc;
  weights_cg : list loc;
  alphas : list loc;
}.

(** ** class DARTSArchitect *)

Module DARTSArchitect.
Section Architect.

(** [self.net], [self.v_net], [self.w_momentum], [self.w_weight_decay]. *)
Variables (net_ v_net : net) (w_momentum w_weight_decay : tnum).

(** Collaborators.  [trn_grad_w] and [trn_grad_a]: [self.net.loss(trn_X,
    trn_y)] differentiated with respect to [self.net.weights()] and to
    [self.net.alphas()]; [val_grad]: [self.v_net.loss(val_X, val_y)]
    differentiated with respect to [v_alphas + v_weights]. *)
Variables (trn_grad_w trn_grad_a val_grad : world -> result (list (option tensor))).
(** [a_optim.zero_grad()] and [a_optim.step()]. *)
Variables (zero_grad a_optim_step : world -> world).

(** The body of the first loop of [virtual_step]. *)
Definition virtual_update (xi : tnum) (wvg : loc * loc * tensor) : M unit :=
  let '(w, vw, g) := wvg in
  d <- state_getitem w ;;
  let m := py_mul_s (dict_get d "momentum_buffer" (PyNum (Fin 0%R))) w_momentum in
  wt <- read w ;;
  copy_ vw (t_sub wt (s_mul xi (t_add (py_add_t m g) (s_mul w_weight_decay wt)))).

Definition virtual_step (xi : tnum) : M unit :=
  gradients <- autograd_grad trn_grad_w ;;
  for_each (virtual_update xi)
    (zip (zip (weights net_) (weights v_net)) gradients) ;;
  for_each (fun '(a, va) => x <- read a ;; copy_ va x)
    (zip (alphas net_) (alphas v_net)).

Definition compute_hessian (dw : list tensor) : M (list tensor) :=
  flat <- torch_cat dw ;;
  let norm := t_norm flat in
  let eps := tdiv (Fin (1 / 100)%R) norm in
  for_each (fun '(p, d) => iadd p (s_mul eps d)) (zip (weights net_) dw) ;;
  dalpha_pos <- autograd_grad trn_grad_a ;;
  for_each (fun '(p, d) => isub p (s_mul (tmul (Fin 2%R) eps) d)) (zip (weights net_) dw) ;;
  dalpha_neg <- autograd_grad trn_grad_a ;;
  for_each (fun '(p, d) => iadd p (s_mul eps d)) (zip (weights net_) dw) ;;
  ret (zip_with (fun p n => t_mul_s (t_div_s (t_sub p n) (Fin 2%R)) eps)
         dalpha_pos dalpha_neg).

(** [step] from the evaluation of the unrolled loss [L_val(w`)] on. *)
Definition unrolled_update (xi : tnum) : M unit :=
  v_grads <- autograd_grad val_grad ;;
  let dalpha := take (length (alphas v_net)) v_grads in
  let dw := drop (length (alphas v_net)) v_grads in
  hessian <- compute_hessian dw ;;
  for_each (fun '(alpha, da, h) => set_grad alpha (t_sub da (s_mul xi h)))
    (zip (zip (alphas net_) dalpha) hessian) ;;
  modify a_optim_step.

Definition step (xi : tnum) : M unit :=
  modify zero_grad ;;
  virtual_step xi ;;
  unrolled_update xi.

End Architect.
End DARTSArchitect.

(** ** class BinaryGateArchitect *)

Module BinaryGateArchitect.
Section Architect.

(** [self.net], [self.v_net], [self.w_momentum], [self.w_weight_decay],
    [self.n_samples], [self.unrolled], [self.renorm]. *)
Variables (net_ v_net : net) (w_momentum w_weight_decay : tnum).
Variables (n_samples : nat) (unrolled renorm : bool).

(** Collaborators.  [trn_grad_w]: the training loss differentiated with
    respect to [self.net.weights(check_grad=True)]; [trn_grad_a]: with
    respect to [self.net.alphas()]; [val_grad_w]: the loss of [v_net] on
    the validation batch differentiated with respect to
    [self.v_net.weights()]; [alpha_grad]: [self.net.alpha_grad(loss)] for
    that loss; [alpha_backward]: [self.net.loss(val_X, val_y)] followed by
    [self.net.alpha_backward(loss)]. *)
Variables (trn_grad_w trn_grad_a val_grad_w : world -> result (list (option tensor))).
Variable (alpha_grad : world -> list (option tensor)).
Variable (alpha_backward : world -> result world).
(** [a_optim.zero_grad()], [a_optim.step()], [sample_ops], [reset_ops]
    and [NASModule.param_modules()]. *)
Variables (zero_grad a_optim_step reset_ops : world -> world).
Variable (sample_ops : nat -> world -> world).
Variable (param_modules : list (loc * nat)).
(** Whether a tensor is a leaf that requires grad: an attribute of the
    tensor, which nothing in [architect.py] changes. *)
Variable (requires_grad : loc -> bool).

Definition virtual_update (xi : tnum) (wvg : loc * loc * tensor) : M unit :=
  let '(w, vw, g) := wvg in
  d <- state_getitem w ;;
  let m := py_mul_s (dict_get d "momentum_buffer" (PyNum (Fin 0%R))) w_momentum in
  wt <- read w ;;
  copy_ vw (t_sub wt (s_mul xi (t_add (py_add_t m g) (s_mul w_weight_decay wt)))).

Definition virtual_step (xi : tnum) : M unit :=
  gradients <- autograd_grad trn_grad_w ;;
  for_each (virtual_update xi)
    (zip (zip (weights_cg net_) (weights_cg v_net)) gradients).

(** [if not p is None and not d is None: p += eps * d]; [p] is a tensor
    of the network, never [None], so the test is on [d]. *)
Definition perturb (c : tnum) (pd : loc * option tensor) : M unit :=
  match pd.2 with
  | Some d => iadd pd.1 (s_mul c d)
  | None => ret tt
  end.

Definition perturb_back (c : tnum) (pd : loc * option tensor) : M unit :=
  match pd.2 with
  | Some d => isub pd.1 (s_mul c d)
  | None => ret tt
  end.

(** One entry of the returned list:
    [(p-n) / 2.*eps if not p is None else 0]. *)
Definition correction (eps : tnum) (pn : option tensor * option tensor) : M pyval :=
  match pn with
  | (Some p, Some n) => ret (PyTensor (t_mul_s (t_div_s (t_sub p n) (Fin 2%R)) eps))
  | (Some p, None) => raise TypeError
  | (None, _) => ret (PyNum (Fin 0%R))
  end.

Definition compute_hessian (dw : list (option tensor)) : M (list pyval) :=
  flat <- torch_cat (omap (fun d => d) dw) ;;
  let norm := t_norm flat in
  let eps := tdiv (Fin (1 / 100)%R) norm in
  for_each (perturb eps) (zip (weights_cg net_) dw) ;;
  dalpha_pos <- autograd_grad_allow_unused trn_grad_a ;;
  for_each (perturb_back (tmul (Fin 2%R) eps)) (zip (weights_cg net_) dw) ;;
  dalpha_neg <- autograd_grad_allow_unused trn_grad_a ;;
  for_each (perturb eps) (zip (weights_cg net_) dw) ;;
  map_m (correction eps) (zip dalpha_pos dalpha_neg).

(** [alpha.grad = da - xi*h]. *)
Definition assign_grad (xi : tnum) (adh : loc * option tensor * pyval) : M unit :=
  let '(alpha, da, h) := adh in
  let xh := s_mul_py xi h in
  match da with
  | Some da => set_grad alpha (t_sub_py da xh)
  | None => raise TypeError
  end.

(** The [else] branch of [step]. *)
Definition unrolled_update (xi : tnum) : M unit :=
  dw <- autograd_grad val_grad_w ;;
  dalpha <- call (fun w => Ok (alpha_grad w)) ;;
  hessian <- compute_hessian (Some <$> dw) ;;
  for_each (assign_grad xi) (zip (zip (alphas net_) dalpha) hessian).

(** [k = torch.sum(torch.exp(pdt)) / torch.sum(torch.exp(pp)) - 1]. *)
Definition k_factor (pdt pp : tensor) : tnum :=
  tsub (tdiv (t_sum (texp <$> pdt)) (t_sum (texp <$> pp))) (Fin 1%R).

(** The four lines shared by the two renormalisation loops: they read
    [s_op] and compute [k] for the pair [(p, m)]. *)
Definition renorm_factor (pm : loc * nat) : M (list nat * tnum) :=
  s_op <- get_state pm.2 ;;
  pdt <- read pm.1 ;;
  pp <- index_select pdt s_op ;;
  ret (s_op, k_factor pdt pp).

(** The loop before [a_optim.step()], which builds [prev_pw]. *)
Definition renorm_before : M (list tnum) :=
  map_m (fun pm => sk <- renorm_factor pm ;; ret sk.2) param_modules.

(** The body of the loop after [a_optim.step()]. *)
Definition renorm_shift (kpm : tnum * (loc * nat)) : M unit :=
  let '(kprev, pm) := kpm in
  sk <- renorm_factor pm ;;
  for_each (fun i => iadd_at requires_grad pm.1 i (tsub (tlog sk.2) (tlog kprev)))
    sk.1.

Definition renorm_after (prev_pw : list tnum) : M unit :=
  for_each renorm_shift (zip prev_pw param_modules).

Definition step (xi : tnum) : M unit :=
  modify zero_grad ;;
  modify (sample_ops n_samples) ;;
  (if negb unrolled then
     call_upd alpha_backward
   else
     virtual_step xi ;;
     unrolled_update xi) ;;
  prev_pw <- (if renorm then renorm_before else ret []) ;;
  modify a_optim_step ;;
  (if renorm then renorm_after prev_pw else ret tt) ;;
  modify reset_ops.

End Architect.
End BinaryGateArchitect.

(** * Vocabulary of the statements *)

(** The sum of a list of reals. *)
Definition Rsum (rs : list R) : R := foldr Rplus 0%R rs.

(** The store in which a computation ends, whether it returns or raises. *)
Definition exec {A} (m : M A) (s : world) : world := (m s).2.

(** [updates_at p t s s']: from [s] to [s'] the tensor [p] became [t] and
    nothing else changed. *)
Definition updates_at (p : loc) (t : tensor) (s s' : world) : Prop :=
  heap s' p = t /\ (forall l, l <> p -> heap s' l = heap s l) /\
  grad s' = grad s /\ ostate s' = ostate s /\ sops s' = sops s.

(** From [s] to [s'] only values of tensors may have changed. *)
Definition same_but_heap (s s' : world) : Prop :=
  grad s' = grad s /\ ostate s' = ostate s /\ sops s' = sops s.

(** The effect of one pass of [p += c * d] and of [p -= c * d] on a
    tensor, for a direction that may be undefined. *)
Definition shifted (c : tnum) (od : option tensor) (t : tensor) : tensor :=
  match od with Some d => t_add t (s_mul c d) | None => t end.

Definition shifted_back (c : tnum) (od : option tensor) (t : tensor) : tensor :=
  match od with Some d => t_sub t (s_mul c d) | None => t end.

(** [eps = 0.01 / norm] for the concatenated direction [flat]. *)
Definition epsilon (flat : tensor) : tnum := tdiv (Fin (1 / 100)%R) (t_norm flat).

(** The store after a pass of [p += c * d], and after a pass of
    [p -= 2. * c * d], over the weights [ws] zipped with [dw]. *)
Definition after_forward (ws : list loc) (c : tnum) (dw : list (option tensor))
    (s : world) : world :=
  exec (for_each (BinaryGateArchitect.perturb c) (zip ws dw)) s.

Definition after_backward (ws : list loc) (c : tnum) (dw : list (option tensor))
    (s : world) : world :=
  exec (for_each (BinaryGateArchitect.perturb_back (tmul (Fin 2%R) c)) (zip ws dw)) s.

(** The stores at which [dalpha_pos] is taken, at which [dalpha_neg] is
    taken, and after the recovery loop. *)
Definition stage1 ws c dw s : world := after_forward ws c dw s.
Definition stage2 ws c dw s : world := after_backward ws c dw (stage1 ws c dw s).
Definition stage3 ws c dw s : world := after_forward ws c dw (stage2 ws c dw s).

(** Every entry of the tensor is a finite number. *)
Definition finite_t (t : tensor) : Prop := Forall (fun x => is_finite x = true) t.

(** What [compute_hessian] does once [eps] is known, written along the
    three stages: the gated variant and the DARTS variant. *)
Definition gated_outcome (ws : list loc) (c : tnum) (dw : list (option tensor))
    (trn_grad_a : world -> result (list (option tensor))) (s : world)
    : result (list pyval) * world :=
  match trn_grad_a (stage1 ws c dw s) with
  | Err e => (Err e, stage1 ws c dw s)
  | Ok pos =>
      match trn_grad_a (stage2 ws c dw s) with
      | Err e => (Err e, stage2 ws c dw s)
      | Ok neg => map_m (BinaryGateArchitect.correction c) (zip pos neg) (stage3 ws c dw s)
      end
  end.

Definition darts_outcome (ws : list loc) (c : tnum) (dw : list tensor)
    (trn_grad_a : world -> result (list (option tensor))) (s : world)
    : result (list tensor) * world :=
  match trn_grad_a (stage1 ws c (Some <$> dw) s) with
  | Err e => (Err e, stage1 ws c (Some <$> dw) s)
  | Ok pos =>
      match all_defined pos with
      | None => (Err RuntimeError, stage1 ws c (Some <$> dw) s)
      | Some pos =>
          match trn_grad_a (stage2 ws c (Some <$> dw) s) with
          | Err e => (Err e, stage2 ws c (Some <$> dw) s)
          | Ok neg =>
              match all_defined neg with
              | None => (Err RuntimeError, stage2 ws c (Some <$> dw) s)
              | Some neg =>
                  (Ok (zip_with (fun p n => t_mul_s (t_div_s (t_sub p n) (Fin 2%R)) c)
                         pos neg),
                   stage3 ws c (Some <$> dw) s)
              end
          end
      end
  end.

(** The direction has at least one defined entry. *)
Definition some_defined (dw : list (option tensor)) : Prop := exists d, Some d ∈ dw.

(** [m]: the momentum buffer of [w] times the momentum coefficient, the
    buffer read as the float [0.] when the state of [w] has none. *)
Definition momentum_term (mu : tnum) (s : world) (w : loc) : pyval :=
  py_mul_s (dict_get (default ∅ (ostate s !! w)) "momentum_buffer" (PyNum (Fin 0%R))) mu.

(** [w - xi * (m + g + weight_decay * w)]. *)
Definition virtual_weight (wd xi : tnum) (m : pyval) (wt g : tensor) : tensor :=
  t_sub wt (s_mul xi (t_add (py_add_t m g) (s_mul wd wt))).

(** Every entry of the optimizer state keeps its value and every key reads
    as before (a key that was missing may now hold an empty dict). *)
Definition ostate_kept (s s' : world) : Prop :=
  (forall k d, ostate s !! k = Some d -> ostate s' !! k = Some d) /\
  (forall k, default ∅ (ostate s' !! k) = default ∅ (ostate s !! k)).

(** From [s] to [s'] only tensors listed in [V] changed value; gradient
    fields, sampling state and optimizer state are as before. *)
Definition frame_outside (V : list loc) (s s' : world) : Prop :=
  (forall l, l ∉ V -> heap s' l = heap s l) /\
  grad s' = grad s /\ sops s' = sops s /\ ostate_kept s s'.

(** Modelled from the spec: the class-level registry of architecture
    parameters (NASModule) is missing; per the spec the gated variant
    "uses the same alpha tensors, no virtual alpha copy", so the alpha
    tensors seen by its virtual model are those of the real model. *)
Definition gated_virtual_alphas (net_ : net) : list loc := alphas net_.

(** The value of [k] that [renorm_factor] computes in the store [s], when
    the indices are in range. *)
Definition k_at (s : world) (pm : loc * nat) : option tnum :=
  BinaryGateArchitect.k_factor (heap s pm.1) <$>
    mapM (fun i => heap s pm.1 !! i) (sops s pm.2).

(** The shift applied to every sampled logit. *)
Definition log_shift (k kprev : tnum) : tnum := tsub (tlog k) (tlog kprev).

(** [step] of the gated variant from the first renormalisation loop on. *)
Definition renorm_and_update (renorm : bool) (a_optim_step reset_ops : world -> world)
    (param_modules : list (loc * nat)) (requires_grad : loc -> bool) : M unit :=
  prev_pw <- (if renorm then BinaryGateArchitect.renorm_before param_modules else ret []) ;;
  modify a_optim_step ;;
  (if renorm then BinaryGateArchitect.renorm_after param_modules requires_grad prev_pw
   else ret tt) ;;
  modify reset_ops.

(** ** Concrete inputs *)

(** A network with two weight tensors and one alpha tensor; a store in
    which the weights hold [[1, 2]] and [[7]]. *)
Definition net_a : net := Net [0; 1] [0; 1] [2].

Definition heap_a (l : loc) : tensor :=
  match l with
  | 0 => [Fin 1%R; Fin 2%R]
  | 1 => [Fin 7%R]
  | _ => [Fin 0%R; Fin 0%R]
  end.

Definition world_a : world := World heap_a (fun _ => None) ∅ (fun _ => []).

(** The direction [[3, 4]] for the first weight, none for the second. *)
Definition dw_a : list (option tensor) := [Some [Fin 3%R; Fin 4%R]; None].

(** The alpha gradient of the bilinear training loss [sum (alpha * w0)]:
    it is the current value of the first weight. *)
Definition bilinear_grad_a (s : world) : result (list (option tensor)) :=
  Ok [Some (heap s 0)].

(** A training loss that raises. *)
Definition failing_grad_a (s : world) : result (list (option tensor)) := Err LossError.

(** A direction whose only defined entry is zero. *)
Definition dw_zero : list (option tensor) := [Some [Fin 0%R; Fin 0%R]; None].

(** Scenario 1: two weight tensors [1.0] and [2.0], their virtual copies at
    [10] and [11], no momentum buffer, training gradient [0.5] for each. *)
Definition net_b : net := Net [0; 1] [0; 1] [2].
Definition v_net_b : net := Net [10; 11] [10; 11] [12].

Definition heap_b (l : loc) : tensor :=
  match l with
  | 0 => [Fin 1%R]
  | 1 => [Fin 2%R]
  | 2 => [Fin 3%R; Fin 5%R]
  | _ => [Fin 0%R]
  end.

Definition world_b : world := World heap_b (fun _ => None) ∅ (fun _ => []).

Definition grad_w_b (s : world) : result (list (option tensor)) :=
  Ok [Some [Fin (5 / 10)%R]; Some [Fin (5 / 10)%R]].


Definition net_c : net := Net [] [] [0].

(** Collaborators that leave the store alone: an optimizer step that
    changes no logit, a sampler that keeps the subset held in the store. *)
Definition no_update (s : world) : world := s.
Definition keep_sample (n : nat) (s : world) : world := s.
Definition backward_noop (s : world) : result world := Ok s.
Definition no_grads (s : world) : result (list (option tensor)) := Ok [].

(** Scenario 3: five operations with logits [[0,0,0,0,0]], two sampled. *)
Definition world_d : world :=
  World (fun _ => [Fin 0%R; Fin 0%R; Fin 0%R; Fin 0%R; Fin 0%R])
        (fun _ => None) ∅ (fun _ => [0; 1]).

(** A gated network with one weight ([0], virtual copy [10]) inside the
    sampled subgraph, one weight ([1], virtual copy [11]) outside it, and
    one alpha tensor ([2]) shared by the real and the virtual model. *)
Definition net_e : net := Net [0; 1] [0] [2].
Definition v_net_e : net := Net [10; 11] [10] [2].

Definition heap_e (l : loc) : tensor :=
  match l with
  | 0 | 10 => [Fin 1%R]
  | 1 | 11 => [Fin 2%R]
  | _ => [Fin 0%R; Fin 0%R]
  end.

Definition world_e : world := World heap_e (fun _ => None) ∅ (fun _ => [0]).

(** The training gradient of the sampled weight. *)
Definition grad_w_e (s : world) : result (list (option tensor)) :=
  Ok [Some [Fin (5 / 10)%R]].

(** The validation gradient with respect to both virtual weights: the
    weight outside the sampled subgraph has none. *)
Definition val_grad_unused (s : world) : result (list (option tensor)) :=
  Ok [Some [Fin 1%R]; None].

(** A validation gradient defined for both virtual weights. *)
Definition val_grad_both (s : world) : result (list (option tensor)) :=
  Ok [Some [Fin 1%R]; Some [Fin 0%R]].

(** Alpha gradients, defined and undefined. *)
Definition alpha_grad_defined (s : world) : list (option tensor) :=
  [Some [Fin 1%R; Fin 0%R]].
Definition alpha_grad_undefined (s : world) : list (option tensor) := [None].
Definition trn_grad_a_undefined (s : world) : result (list (option tensor)) :=
  Ok [None].

(** ** Vocabulary for the further properties *)

(** The entry of the list returned by the gated [compute_hessian] for a
    pair of alpha gradients, when it is defined: [(p-n) / 2.*eps] for two
    tensors and [0] when the first gradient is [None]. *)
Definition correction_value (c : tnum) (pn : option tensor * option tensor) : pyval :=
  match pn with
  | (Some p, Some n) => PyTensor (t_mul_s (t_div_s (t_sub p n) (Fin 2%R)) c)
  | _ => PyNum (Fin 0%R)
  end.

(** The gradient at [w + eps*dw] is a tensor and the one at [w - eps*dw] is
    [None]. *)
Definition mismatched (pn : option tensor * option tensor) : Prop :=
  exists p, pn = (Some p, None).

(** The joint gradient of the unrolled loss for [net_a]: one entry for the
    alpha tensor, then one for each of the two weights. *)
Definition val_grad_joint (s : world) : result (list (option tensor)) :=
  Ok [Some [Fin 1%R; Fin 0%R]; Some [Fin 3%R; Fin 4%R]; Some [Fin 0%R]].

(** An optimizer step on the alpha tensor [0] of [world_d]: the first
    logit becomes [1]. *)
Definition raise_first_logit (s : world) : world :=
  set_heap (<[0 := [Fin 1%R; Fin 0%R; Fin 0%R; Fin 0%R; Fin 0%R]]> (heap s)) s.

(** Every sampled index of the decision point [pm] is an index of its
    logits; some sampled index is not. *)
Definition indices_in_range (s : world) (pm : loc * nat) : Prop :=
  forall i, i ∈ sops s pm.2 -> i < length (heap s pm.1).

Definition index_out_of_range (s : world) (pm : loc * nat) : Prop :=
  exists i, i ∈ sops s pm.2 /\ length (heap s pm.1) <= i.

(** Two logits, and a sampled subset that names a third operation. *)
Definition world_f : world :=
  World (fun _ => [Fin 0%R; Fin 0%R]) (fun _ => None) ∅ (fun _ => [0; 2]).

(** The joint gradient of the unrolled loss for [v_net_b]: one entry for
    its alpha tensor, then one for each of its two weights. *)
Definition val_grad_b (s : world) : result (list (option tensor)) :=
  Ok [Some [Fin 1%R; Fin 0%R]; Some [Fin 3%R]; Some [Fin 4%R]].

(** The part of the gated [step] between [sample_ops] and the
    renormalisation: [alpha_backward] on the validation loss in
    first-order mode, the virtual step and the corrected gradients in
    unrolled mode. *)
Definition gradient_branch (net_ v_net : net) (mu wd : tnum) (unrolled : bool)
    (trn_grad_w trn_grad_a val_grad_w : world -> result (list (option tensor)))
    (alpha_grad : world -> list (option tensor))
    (alpha_backward : world -> result world) (xi : tnum) : M unit :=
  if negb unrolled then call_upd alpha_backward
  else (BinaryGateArchitect.virtual_step net_ v_net mu wd trn_grad_w xi ;;
        BinaryGateArchitect.unrolled_update net_ trn_grad_a val_grad_w alpha_grad xi).

(** A validation loss that raises. *)
Definition backward_fails (s : world) : result world := Err LossError.

(** The alpha gradients of a training loss that uses the first of two
    alphas and not the second. *)
Definition grad_a_unused (s : world) : result (list (option tensor)) :=
  Ok [Some (heap s 0); None].

(** ** Vocabulary of the revised statements *)

(** What the three passes leave in the weight [p] paired with the [i]-th
    direction: the values of [pass1], [pass2] and [pass3] when the
    direction is defined, and no change when it is undefined or missing. *)
Definition stages_expr (ws : list loc) (c : tnum) (dw : list (option tensor))
    (s : world) (i : nat) (p : loc) : Prop :=
  match dw !! i with
  | Some (Some d) =>
      heap (stage1 ws c dw s) p = pass1 tnum_arith c (heap s p) d /\
      heap (stage2 ws c dw s) p = pass2 tnum_arith c (heap s p) d /\
      heap (stage3 ws c dw s) p = pass3 tnum_arith c (heap s p) d
  | _ =>
      heap (stage1 ws c dw s) p = heap s p /\
      heap (stage2 ws c dw s) p = heap s p /\
      heap (stage3 ws c dw s) p = heap s p
  end.

(** The value [compute_hessian] leaves in the weight paired with the
    [i]-th direction when it returns. *)
Definition after_passes (c : tnum) (dw : list (option tensor)) (i : nat) (t : tensor)
    : tensor :=
  match dw !! i with
  | Some (Some d) => pass3 tnum_arith c t d
  | _ => t
  end.

(** The real weights that the loop of [virtual_step] reads: those paired
    with a virtual weight and a gradient by [zip]. *)
Definition weights_read (ws vws : list loc) (gs : list tensor) : list loc :=
  take (min (length vws) (length gs)) ws.

(** [w_optim.state] after [w_optim.state[w]] was evaluated for the
    weights [ws]: a key that was missing holds an empty dict. *)
Definition state_after_reads (ws : list loc) (s s' : world) : Prop :=
  forall k, ostate s' !! k =
            if decide (k ∈ ws) then Some (default ∅ (ostate s !! k)) else ostate s !! k.



(** The weight [[1, 2]] and the direction [[3, 4]] in binary32. *)
Definition w32_a : list f32 := f32_of_Z <$> [1%Z; 2%Z].
Definition dw32_a : list f32 := f32_of_Z <$> [3%Z; 4%Z].

(** The alpha gradient of the training loss [sum (alpha * cat(w0, w1))]:
    the current values of the two weights. *)
Definition bilinear_grad_b (s : world) : result (list (option tensor)) :=
  Ok [Some (heap s 0 ++ heap s 1)].

(** * Properties *)

(** ** Scalars *)

Lemma sign_of_spec (r : R) :
  CompareSpec (r = 0)%R (r < 0)%R (0 < r)%R (sign_of r).
Proof. unfold sign_of. apply Rcompare_spec. Qed.

Lemma sign_of_pos (r : R) : (0 < r)%R -> sign_of r = Gt.
Proof. intros H. destruct (sign_of_spec r); [lra | lra | reflexivity]. Qed.

Lemma sign_of_neg (r : R) : (r < 0)%R -> sign_of r = Lt.
Proof. intros H. destruct (sign_of_spec r); [lra | reflexivity | lra]. Qed.

Lemma sign_of_zero (r : R) : r = 0%R -> sign_of r = Eq.
Proof. intros H. destruct (sign_of_spec r); [reflexivity | lra | lra]. Qed.

Lemma tdiv_fin (a b : R) : b <> 0%R -> tdiv (Fin a) (Fin b) = Fin (a / b)%R.
Proof. intros H. simpl. destruct (sign_of_spec b); [lra | reflexivity | reflexivity]. Qed.

Lemma tdiv_pos_zero (a : R) : (0 < a)%R -> tdiv (Fin a) (Fin 0%R) = PInf.
Proof. intros H. simpl. rewrite (sign_of_zero 0), (sign_of_pos a); auto. Qed.

Lemma tsqrt_fin (r : R) : (0 <= r)%R -> tsqrt (Fin r) = Fin (sqrt r).
Proof. intros H. simpl. destruct (sign_of_spec r); [reflexivity | lra | reflexivity]. Qed.



(** ** Tensors with finite entries *)

Lemma t_sum_fin (rs : list R) : t_sum (Fin <$> rs) = Fin (Rsum rs).
Proof.
  induction rs as [|r rs IH]; [reflexivity|].
  change (t_sum (Fin <$> r :: rs)) with (tadd (Fin r) (t_sum (Fin <$> rs))).
  rewrite IH. reflexivity.
Qed.

Lemma Rsum_squares_nonneg (rs : list R) : (0 <= Rsum ((fun r => r * r)%R <$> rs))%R.
Proof.
  induction rs as [|r rs IH]; [unfold Rsum; simpl; lra|].
  change (0 <= r * r + Rsum ((fun r => r * r)%R <$> rs))%R. nra.
Qed.

Lemma t_norm_fin (rs : list R) :
  t_norm (Fin <$> rs) = Fin (sqrt (Rsum ((fun r => r * r)%R <$> rs))).
Proof.
  unfold t_norm. rewrite <- list_fmap_compose.
  change ((fun x => tmul x x) ∘ Fin) with (Fin ∘ (fun r => r * r)%R).
  rewrite list_fmap_compose, t_sum_fin.
  apply tsqrt_fin, Rsum_squares_nonneg.
Qed.


(** ** The monad *)

Lemma bind_ok {A B} (m : M A) (f : A -> M B) s a s' :
  m s = (Ok a, s') -> bind m f s = f a s'.
Proof. intros H. unfold bind. rewrite H. reflexivity. Qed.

(** A loop whose body never raises runs to its end. *)
Lemma for_each_total {A} (f : A -> M unit) l :
  (forall x s, (f x s).1 = Ok tt) ->
  forall s, for_each f l s = (Ok tt, exec (for_each f l) s).
Proof.
  intros Hf. induction l as [|x l IH]; intros s; [reflexivity|].
  unfold exec in *. simpl. unfold bind.
  specialize (Hf x s). destruct (f x s) as [r s1]. simpl in Hf. subst r.
  apply IH.
Qed.

(** ** Loops that update stored tensors in place *)

Lemma write_updates p t s : updates_at p t s (exec (write p t) s).
Proof.
  unfold updates_at, exec, write. simpl. repeat split.
  - apply fn_lookup_insert.
  - intros l Hl. apply fn_lookup_insert_ne. congruence.
Qed.

Lemma updates_at_refl p s : updates_at p (heap s p) s s.
Proof. unfold updates_at. auto. Qed.

Section UpdateLoop.
Context {B : Type} (f : loc * B -> M unit) (F : B -> tensor -> tensor).
Hypothesis f_ok : forall p b s, (f (p, b) s).1 = Ok tt.
Hypothesis f_upd : forall p b s, updates_at p (F b (heap s p)) s (exec (f (p, b)) s).

Lemma update_loop_ok ws bs s :
  for_each f (zip ws bs) s = (Ok tt, exec (for_each f (zip ws bs)) s).
Proof using f_ok. apply for_each_total. intros [p b] s0. apply f_ok. Qed.

Lemma update_loop_other ws bs s :
  same_but_heap s (exec (for_each f (zip ws bs)) s) /\
  forall l, l ∉ ws -> heap (exec (for_each f (zip ws bs)) s) l = heap s l.
Proof using f_ok f_upd.
  revert bs s. induction ws as [|p ws IH]; intros bs s.
  { unfold same_but_heap. simpl. auto. }
  destruct bs as [|b bs].
  { unfold same_but_heap. simpl. auto. }
  change (zip (p :: ws) (b :: bs)) with ((p, b) :: zip ws bs).
  unfold exec. simpl. unfold bind.
  pose proof (f_ok p b s) as Hok. pose proof (f_upd p b s) as Hupd.
  unfold exec in Hupd. destruct (f (p, b) s) as [r s1]. simpl in *. subst r.
  destruct (IH bs s1) as [(Hg & Ho & Hs) Hh]. unfold exec in *.
  destruct Hupd as (_ & Hne & Hg1 & Ho1 & Hs1).
  split.
  - unfold same_but_heap. rewrite Hg, Ho, Hs. auto.
  - intros l Hl. rewrite not_elem_of_cons in Hl. destruct Hl as [Hlp Hlw].
    rewrite Hh by exact Hlw. apply Hne, Hlp.
Qed.

Lemma update_loop_at ws bs s i p :
  NoDup ws -> ws !! i = Some p ->
  heap (exec (for_each f (zip ws bs)) s) p =
    match bs !! i with Some b => F b (heap s p) | None => heap s p end.
Proof using f_ok f_upd.
  revert bs s i. induction ws as [|q ws IH]; intros bs s i Hnd Hi.
  { rewrite lookup_nil in Hi. discriminate. }
  pose proof (NoDup_cons_1_1 _ _ Hnd) as Hq.
  apply NoDup_cons_1_2 in Hnd.
  destruct bs as [|b bs].
  { rewrite lookup_nil. reflexivity. }
  change (zip (q :: ws) (b :: bs)) with ((q, b) :: zip ws bs).
  unfold exec. simpl for_each. unfold bind.
  pose proof (f_ok q b s) as Hok. pose proof (f_upd q b s) as Hupd.
  unfold exec in Hupd. destruct (f (q, b) s) as [r s1]. simpl in Hok, Hupd. subst r.
  destruct Hupd as (Hat & Hne & _).
  destruct i as [|i]; simpl in Hi.
  - inversion Hi; subst q. simpl.
    destruct (update_loop_other ws bs s1) as [_ Hh]. unfold exec in Hh.
    rewrite Hh by exact Hq. exact Hat.
  - simpl. specialize (IH bs s1 i Hnd Hi). unfold exec in IH. rewrite IH.
    assert (p <> q) as Hpq.
    { intros ->. apply Hq. eapply list_elem_of_lookup_2. exact Hi. }
    rewrite (Hne p Hpq). reflexivity.
Qed.
End UpdateLoop.

Lemma iadd_updates p t s : updates_at p (t_add (heap s p) t) s (exec (iadd p t) s).
Proof. apply (write_updates p (t_add (heap s p) t) s). Qed.

Lemma isub_updates p t s : updates_at p (t_sub (heap s p) t) s (exec (isub p t) s).
Proof. apply (write_updates p (t_sub (heap s p) t) s). Qed.

Lemma perturb_ok c p od s : (BinaryGateArchitect.perturb c (p, od) s).1 = Ok tt.
Proof. destruct od; reflexivity. Qed.

Lemma perturb_updates c p od s :
  updates_at p (shifted c od (heap s p)) s (exec (BinaryGateArchitect.perturb c (p, od)) s).
Proof.
  destruct od as [d|]; simpl.
  - apply iadd_updates.
  - apply updates_at_refl.
Qed.

Lemma perturb_back_ok c p od s : (BinaryGateArchitect.perturb_back c (p, od) s).1 = Ok tt.
Proof. destruct od; reflexivity. Qed.

Lemma perturb_back_updates c p od s :
  updates_at p (shifted_back c od (heap s p)) s
    (exec (BinaryGateArchitect.perturb_back c (p, od)) s).
Proof.
  destruct od as [d|]; simpl.
  - apply isub_updates.
  - apply updates_at_refl.
Qed.

(** ** The finite-difference estimator: its three stages *)

Lemma forward_run ws c dw s :
  for_each (BinaryGateArchitect.perturb c) (zip ws dw) s = (Ok tt, after_forward ws c dw s).
Proof. apply (update_loop_ok _ (perturb_ok c)). Qed.

Lemma backward_run ws c dw s :
  for_each (BinaryGateArchitect.perturb_back (tmul (Fin 2%R) c)) (zip ws dw) s
  = (Ok tt, after_backward ws c dw s).
Proof. apply (update_loop_ok _ (perturb_back_ok _)). Qed.

Lemma after_forward_other ws c dw s :
  same_but_heap s (after_forward ws c dw s) /\
  forall l, l ∉ ws -> heap (after_forward ws c dw s) l = heap s l.
Proof. apply (update_loop_other _ _ (perturb_ok c) (perturb_updates c)). Qed.

Lemma after_backward_other ws c dw s :
  same_but_heap s (after_backward ws c dw s) /\
  forall l, l ∉ ws -> heap (after_backward ws c dw s) l = heap s l.
Proof. apply (update_loop_other _ _ (perturb_back_ok _) (perturb_back_updates _)). Qed.

Lemma after_forward_at ws c dw s i p :
  NoDup ws -> ws !! i = Some p ->
  heap (after_forward ws c dw s) p =
    match dw !! i with Some od => shifted c od (heap s p) | None => heap s p end.
Proof. apply (update_loop_at _ _ (perturb_ok c) (perturb_updates c)). Qed.

Lemma after_backward_at ws c dw s i p :
  NoDup ws -> ws !! i = Some p ->
  heap (after_backward ws c dw s) p =
    match dw !! i with
    | Some od => shifted_back (tmul (Fin 2%R) c) od (heap s p)
    | None => heap s p
    end.
Proof. apply (update_loop_at _ _ (perturb_back_ok _) (perturb_back_updates _)). Qed.

(** The loops of the DARTS variant are those of the gated variant on a
    direction with every entry defined. *)
Lemma darts_forward_loop c ws (dw : list tensor) :
  for_each (fun '(p, d) => iadd p (s_mul c d)) (zip ws dw)
  = for_each (BinaryGateArchitect.perturb c) (zip ws (Some <$> dw)).
Proof.
  revert dw. induction ws as [|p ws IH]; intros [|d dw]; try reflexivity.
  simpl. rewrite IH. reflexivity.
Qed.

Lemma darts_backward_loop c ws (dw : list tensor) :
  for_each (fun '(p, d) => isub p (s_mul c d)) (zip ws dw)
  = for_each (BinaryGateArchitect.perturb_back c) (zip ws (Some <$> dw)).
Proof.
  revert dw. induction ws as [|p ws IH]; intros [|d dw]; try reflexivity.
  simpl. rewrite IH. reflexivity.
Qed.

Lemma finite_inv (x : tnum) : is_finite x = true -> exists r, x = Fin r.
Proof. destruct x; try discriminate. eauto. Qed.

(** In the arithmetic of the real numbers, on finite entries, the second
    pass lands on [t - c * d]; used to evaluate the stages at concrete
    inputs. *)
Lemma backward_of_forward c t d :
  is_finite c = true -> finite_t t -> finite_t d -> length d = length t ->
  t_sub (t_add t (s_mul c d)) (s_mul (tmul (Fin 2%R) c) d) = t_sub t (s_mul c d).
Proof.
  intros Hc Ht. apply finite_inv in Hc as [e ->].
  revert d. induction Ht as [|x t Hx Ht IH]; intros [|y d] Hd Hlen; try discriminate.
  { reflexivity. }
  apply Forall_cons_1 in Hd as [Hy Hd].
  apply finite_inv in Hx as [r ->]. apply finite_inv in Hy as [q ->].
  unfold t_sub, t_add, s_mul in *. simpl.
  f_equal.
  - f_equal. lra.
  - apply IH; [exact Hd | simpl in Hlen; congruence].
Qed.

Lemma bind_call {A B} (o : world -> result A) (f : A -> M B) s :
  bind (call o) f s = match o s with Ok a => f a s | Err e => (Err e, s) end.
Proof. unfold bind, call. destruct (o s); reflexivity. Qed.

Lemma bind_ret {A B} (a : A) (f : A -> M B) s : bind (ret a) f s = f a s.
Proof. reflexivity. Qed.

Lemma gated_stages_run ws c dw trn_grad_a s :
  (for_each (BinaryGateArchitect.perturb c) (zip ws dw) ;;
   dalpha_pos <- autograd_grad_allow_unused trn_grad_a ;;
   for_each (BinaryGateArchitect.perturb_back (tmul (Fin 2%R) c)) (zip ws dw) ;;
   dalpha_neg <- autograd_grad_allow_unused trn_grad_a ;;
   for_each (BinaryGateArchitect.perturb c) (zip ws dw) ;;
   map_m (BinaryGateArchitect.correction c) (zip dalpha_pos dalpha_neg)) s
  = gated_outcome ws c dw trn_grad_a s.
Proof.
  rewrite (bind_ok _ _ _ _ _ (forward_run ws c dw s)).
  unfold autograd_grad_allow_unused. rewrite bind_call.
  unfold gated_outcome, stage3, stage2, stage1.
  destruct (trn_grad_a (after_forward ws c dw s)) as [pos|e]; [|reflexivity].
  rewrite (bind_ok _ _ _ _ _ (backward_run ws c dw _)).
  rewrite bind_call.
  destruct (trn_grad_a (after_backward ws c dw _)) as [neg|e]; [|reflexivity].
  rewrite (bind_ok _ _ _ _ _ (forward_run ws c dw _)).
  reflexivity.
Qed.

(** [compute_hessian] unfolded along its stages. *)
Lemma gated_compute_hessian_outcome (net_ : net) trn_grad_a dw s :
  BinaryGateArchitect.compute_hessian net_ trn_grad_a dw s =
    match omap (fun d => d) dw with
    | [] => (Err RuntimeError, s)
    | _ :: _ =>
        gated_outcome (weights_cg net_) (epsilon (concat (omap (fun d => d) dw)))
          dw trn_grad_a s
    end.
Proof.
  unfold BinaryGateArchitect.compute_hessian.
  destruct (omap (fun d => d) dw) as [|d0 ds]; [reflexivity|].
  unfold torch_cat. rewrite bind_ret. apply gated_stages_run.
Qed.

Lemma bind_autograd_grad {B} o (f : list tensor -> M B) s :
  bind (autograd_grad o) f s =
    match o s with
    | Err e => (Err e, s)
    | Ok gs =>
        match all_defined gs with
        | Some ts => f ts s
        | None => (Err RuntimeError, s)
        end
    end.
Proof.
  unfold autograd_grad, bind, call. destruct (o s) as [gs|e]; [|reflexivity].
  destruct (all_defined gs); reflexivity.
Qed.

Lemma darts_stages_run ws c (dw : list tensor) trn_grad_a s :
  (for_each (fun '(p, d) => iadd p (s_mul c d)) (zip ws dw) ;;
   dalpha_pos <- autograd_grad trn_grad_a ;;
   for_each (fun '(p, d) => isub p (s_mul (tmul (Fin 2%R) c) d)) (zip ws dw) ;;
   dalpha_neg <- autograd_grad trn_grad_a ;;
   for_each (fun '(p, d) => iadd p (s_mul c d)) (zip ws dw) ;;
   ret (zip_with (fun p n => t_mul_s (t_div_s (t_sub p n) (Fin 2%R)) c)
          dalpha_pos dalpha_neg)) s
  = darts_outcome ws c dw trn_grad_a s.
Proof.
  rewrite !darts_forward_loop, darts_backward_loop.
  rewrite (bind_ok _ _ _ _ _ (forward_run ws c _ s)).
  rewrite bind_autograd_grad. unfold darts_outcome, stage3, stage2, stage1.
  destruct (trn_grad_a (after_forward ws c _ s)) as [pos|e]; [|reflexivity].
  destruct (all_defined pos) as [pos'|]; [|reflexivity].
  rewrite (bind_ok _ _ _ _ _ (backward_run ws c _ _)).
  rewrite bind_autograd_grad.
  destruct (trn_grad_a (after_backward ws c _ _)) as [neg|e]; [|reflexivity].
  destruct (all_defined neg) as [neg'|]; [|reflexivity].
  rewrite (bind_ok _ _ _ _ _ (forward_run ws c _ _)).
  reflexivity.
Qed.

Lemma darts_compute_hessian_outcome (net_ : net) trn_grad_a dw s :
  DARTSArchitect.compute_hessian net_ trn_grad_a dw s =
    match dw with
    | [] => (Err RuntimeError, s)
    | _ :: _ => darts_outcome (weights net_) (epsilon (concat dw)) dw trn_grad_a s
    end.
Proof.
  unfold DARTSArchitect.compute_hessian.
  destruct dw as [|d0 ds]; [reflexivity|].
  exact (darts_stages_run (weights net_) (epsilon (concat (d0 :: ds))) (d0 :: ds)
           trn_grad_a s).
Qed.

Lemma epsilon_fin (flat : tensor) (n : R) :
  t_norm flat = Fin n -> n <> 0%R -> epsilon flat = Fin (1 / 100 / n)%R.
Proof. intros Hn Hne. unfold epsilon. rewrite Hn. apply tdiv_fin, Hne. Qed.

Lemma epsilon_zero_norm (flat : tensor) : t_norm flat = Fin 0%R -> epsilon flat = PInf.
Proof. intros Hn. unfold epsilon. rewrite Hn. apply tdiv_pos_zero. lra. Qed.

Section Stages.
Variables (ws : list loc) (c : tnum) (dw : list (option tensor)) (s : world).
Hypothesis ws_nodup : NoDup ws.

Lemma stages_other l :
  l ∉ ws ->
  heap (stage1 ws c dw s) l = heap s l /\ heap (stage2 ws c dw s) l = heap s l /\
  heap (stage3 ws c dw s) l = heap s l.
Proof.
  intros Hl. unfold stage3, stage2, stage1.
  destruct (after_forward_other ws c dw s) as [_ H1].
  destruct (after_backward_other ws c dw (after_forward ws c dw s)) as [_ H2].
  destruct (after_forward_other ws c dw
              (after_backward ws c dw (after_forward ws c dw s))) as [_ H3].
  rewrite H3, H2, H1 by exact Hl. auto.
Qed.

(** A weight whose direction is undefined, or that has no direction at
    all, is skipped by every pass. *)
Lemma stages_skipped i p :
  ws !! i = Some p -> (dw !! i = Some None \/ dw !! i = None) ->
  heap (stage1 ws c dw s) p = heap s p /\ heap (stage2 ws c dw s) p = heap s p /\
  heap (stage3 ws c dw s) p = heap s p.
Proof using ws_nodup.
  intros Hp Hd. unfold stage3, stage2, stage1.
  repeat (rewrite (after_forward_at ws c dw _ i p ws_nodup Hp)
          || rewrite (after_backward_at ws c dw _ i p ws_nodup Hp)).
  destruct Hd as [-> | ->]; simpl; auto.
Qed.

Lemma stage1_at i p d :
  ws !! i = Some p -> dw !! i = Some (Some d) ->
  heap (stage1 ws c dw s) p = t_add (heap s p) (s_mul c d).
Proof using ws_nodup.
  intros Hp Hd. unfold stage1.
  rewrite (after_forward_at ws c dw _ i p ws_nodup Hp), Hd. reflexivity.
Qed.

Lemma stage2_at i p d :
  ws !! i = Some p -> dw !! i = Some (Some d) ->
  is_finite c = true -> finite_t (heap s p) -> finite_t d ->
  length d = length (heap s p) ->
  heap (stage2 ws c dw s) p = t_sub (heap s p) (s_mul c d).
Proof using ws_nodup.
  intros Hp Hd Hc Ht Hfd Hlen. unfold stage2.
  rewrite (after_backward_at ws c dw _ i p ws_nodup Hp), Hd. simpl.
  rewrite (stage1_at i p d Hp Hd).
  apply backward_of_forward; assumption.
Qed.

End Stages.

Lemma omap_defined_nonempty (dw : list (option tensor)) :
  some_defined dw -> omap (fun d => d) dw <> [].
Proof.
  intros [d Hd] Hnil.
  assert (d ∈ omap (fun d => d) dw) as Hin.
  { apply list_elem_of_omap. exists (Some d). auto. }
  rewrite Hnil in Hin. apply elem_of_nil in Hin. exact Hin.
Qed.

Lemma omap_undefined_empty (dw : list (option tensor)) :
  ~ some_defined dw -> omap (fun d => d) dw = [].
Proof.
  intros Hnone. destruct (omap (fun d => d) dw) as [|d ds] eqn:E; [reflexivity|].
  exfalso. apply Hnone. exists d.
  assert (d ∈ omap (fun d => d) dw) as Hin by (rewrite E; left).
  apply list_elem_of_omap in Hin as (od & Hod & Heq). subst od. exact Hod.
Qed.

Lemma stages_expr_holds ws c dw s i p :
  NoDup ws -> ws !! i = Some p -> stages_expr ws c dw s i p.
Proof.
  intros Hnd Hp. unfold stages_expr.
  destruct (dw !! i) as [[d|]|] eqn:Hd.
  - assert (heap (stage1 ws c dw s) p = pass1 tnum_arith c (heap s p) d) as H1.
    { apply (stage1_at ws c dw s Hnd i p d Hp Hd). }
    assert (heap (stage2 ws c dw s) p = pass2 tnum_arith c (heap s p) d) as H2.
    { unfold stage2.
      rewrite (after_backward_at ws c dw _ i p Hnd Hp), Hd. cbn [shifted_back].
      rewrite H1. reflexivity. }
    split; [exact H1|]. split; [exact H2|].
    unfold stage3.
    rewrite (after_forward_at ws c dw _ i p Hnd Hp), Hd. cbn [shifted].
    rewrite H2. reflexivity.
  - apply (stages_skipped ws c dw s Hnd i p Hp). auto.
  - apply (stages_skipped ws c dw s Hnd i p Hp). auto.
Qed.

Lemma norm_3_4 : t_norm [Fin 3%R; Fin 4%R] = Fin 5%R.
Proof.
  change [Fin 3%R; Fin 4%R] with (Fin <$> [3%R; 4%R]).
  rewrite (t_norm_fin [3%R; 4%R]). f_equal.
  replace (Rsum ((fun r => r * r)%R <$> [3%R; 4%R])) with (5 * 5)%R
    by (unfold Rsum; simpl; lra).
  apply sqrt_square. lra.
Qed.

Lemma epsilon_3_4 : epsilon [Fin 3%R; Fin 4%R] = Fin (2 / 1000)%R.
Proof.
  rewrite (epsilon_fin _ 5%R norm_3_4) by lra. f_equal. lra.
Qed.

(** ** The perturbation scale and the three stages *)

Lemma gated_hessian_stages (net_ : net) trn_grad_a (dw : list (option tensor)) s :
  some_defined dw -> NoDup (weights_cg net_) ->
  BinaryGateArchitect.compute_hessian net_ trn_grad_a dw s
    = gated_outcome (weights_cg net_) (epsilon (concat (omap (fun d => d) dw)))
        dw trn_grad_a s /\
  forall i p, weights_cg net_ !! i = Some p ->
    stages_expr (weights_cg net_) (epsilon (concat (omap (fun d => d) dw))) dw s i p.
Proof.
  intros Hdef Hnd. split.
  - rewrite gated_compute_hessian_outcome.
    pose proof (omap_defined_nonempty dw Hdef) as Hne.
    destruct (omap (fun d => d) dw); [congruence | reflexivity].
  - intros i p Hp. apply stages_expr_holds; assumption.
Qed.

Lemma darts_hessian_stages (net_ : net) trn_grad_a (dw : list tensor) s :
  dw <> [] -> NoDup (weights net_) ->
  DARTSArchitect.compute_hessian net_ trn_grad_a dw s
    = darts_outcome (weights net_) (epsilon (concat dw)) dw trn_grad_a s /\
  forall i p, weights net_ !! i = Some p ->
    stages_expr (weights net_) (epsilon (concat dw)) (Some <$> dw) s i p.
Proof.
  intros Hne Hnd. split.
  - rewrite darts_compute_hessian_outcome.
    destruct dw; [congruence | reflexivity].
  - intros i p Hp. apply stages_expr_holds; assumption.
Qed.

(** C8 (as amended): with at least one defined entry in [dw],
    [compute_hessian] works with [eps = 0.01 / norm], the norm being the
    Euclidean norm of the concatenation of the defined entries, and
    [dw = [3, 4]] gives [norm = 5] and [eps = 0.002]; a weight whose
    direction is undefined is skipped by every pass; the stores at which
    the two alpha gradients are taken and the final store hold, for a
    perturbed weight, [w + eps*dw], then [(w + eps*dw) - 2.*eps*dw], then
    [((w + eps*dw) - 2.*eps*dw) + eps*dw], as the three passes compute
    them. *)
Theorem compute_hessian_epsilon_stages :
  (t_norm [Fin 3%R; Fin 4%R] = Fin 5%R /\ epsilon [Fin 3%R; Fin 4%R] = Fin (2 / 1000)%R)
  /\ (forall rs : list R,
        t_norm (Fin <$> rs) = Fin (sqrt (Rsum ((fun r => r * r)%R <$> rs))))
  /\ (forall flat : tensor,
        t_norm flat = norm_of tnum_arith flat /\ epsilon flat = eps_of tnum_arith flat)
  /\ (forall (net_ : net) trn_grad_a (dw : list (option tensor)) (s : world),
        some_defined dw -> NoDup (weights_cg net_) ->
        let c := epsilon (concat (omap (fun d => d) dw)) in
        BinaryGateArchitect.compute_hessian net_ trn_grad_a dw s
          = gated_outcome (weights_cg net_) c dw trn_grad_a s /\
        forall i p, weights_cg net_ !! i = Some p ->
                    stages_expr (weights_cg net_) c dw s i p)
  /\ (forall (net_ : net) trn_grad_a (dw : list tensor) (s : world),
        dw <> [] -> NoDup (weights net_) ->
        let c := epsilon (concat dw) in
        DARTSArchitect.compute_hessian net_ trn_grad_a dw s
          = darts_outcome (weights net_) c dw trn_grad_a s /\
        forall i p, weights net_ !! i = Some p ->
                    stages_expr (weights net_) c (Some <$> dw) s i p).
Proof.
  split; [split; [apply norm_3_4 | apply epsilon_3_4]|].
  split; [apply t_norm_fin|].
  split; [intros flat; split; reflexivity|].
  split.
  - intros net_ trn_grad_a dw s Hdef Hnd c. apply gated_hessian_stages; assumption.
  - intros net_ trn_grad_a dw s Hne Hnd c. apply darts_hessian_stages; assumption.
Qed.

Lemma nodup_0_1 : NoDup [0; 1].
Proof. apply (bool_decide_unpack _). vm_compute. exact I. Qed.

Lemma dw_a_defined : some_defined dw_a.
Proof. exists [Fin 3%R; Fin 4%R]. left. Qed.

Lemma compute_hessian_epsilon_stages_witness :
  heap (stage1 [0; 1] (Fin (2 / 1000)%R) dw_a world_a) 0
    = [Fin (1006 / 1000)%R; Fin (2008 / 1000)%R] /\
  heap (stage2 [0; 1] (Fin (2 / 1000)%R) dw_a world_a) 0
    = pass2 tnum_arith (Fin (2 / 1000)%R) [Fin 1%R; Fin 2%R] [Fin 3%R; Fin 4%R] /\
  heap (stage3 [0; 1] (Fin (2 / 1000)%R) dw_a world_a) 0
    = pass3 tnum_arith (Fin (2 / 1000)%R) [Fin 1%R; Fin 2%R] [Fin 3%R; Fin 4%R] /\
  heap (stage3 [0; 1] (Fin (2 / 1000)%R) dw_a world_a) 1 = [Fin 7%R].
Proof.
  destruct compute_hessian_epsilon_stages as (_ & _ & _ & Hgated & _).
  destruct (Hgated net_a bilinear_grad_a dw_a world_a dw_a_defined nodup_0_1)
    as [_ Hstages].
  pose proof (Hstages 0 0 eq_refl) as H0.
  pose proof (Hstages 1 1 eq_refl) as H1.
  unfold stages_expr in H0, H1.
  change (dw_a !! 0) with (Some (Some [Fin 3%R; Fin 4%R])) in H0.
  change (dw_a !! 1) with (Some (@None tensor)) in H1.
  cbv beta iota in H0, H1.
  change (concat (omap (fun d => d) dw_a)) with [Fin 3%R; Fin 4%R] in H0, H1.
  change (weights_cg net_a) with [0; 1] in H0, H1.
  rewrite epsilon_3_4 in H0, H1.
  destruct H0 as (S1 & S2 & S3). destruct H1 as (_ & _ & T3).
  rewrite S1, S2, S3, T3.
  split; [|repeat split; reflexivity].
  unfold pass1. simpl. repeat f_equal; lra.
Defined.

(** In binary32 the second pass does not land on [w - eps*dw] and the
    third does not land back on [w]: for [w = [1, 2]] and [dw = [3, 4]]
    the norm is [5], the second pass leaves [1.99199986...] in the second
    entry, where [2 - eps*4] is [1.99199998...], and the third leaves
    [1.99999988...]. *)
Lemma compute_hessian_epsilon_stages_counterexample :
  norm_of f32_arith dw32_a = f32_of_Z 5 /\
  pass2 f32_arith (eps_of f32_arith dw32_a) w32_a dw32_a
    = [SpecFloat.S754_finite false 16676553 (-24);
       SpecFloat.S754_finite false 16710106 (-23)] /\
  zip_with (a_sub f32_arith) w32_a (a_mul f32_arith (eps_of f32_arith dw32_a) <$> dw32_a)
    = [SpecFloat.S754_finite false 16676553 (-24);
       SpecFloat.S754_finite false 16710107 (-23)] /\
  pass3 f32_arith (eps_of f32_arith dw32_a) w32_a dw32_a
    = [f32_of_Z 1; SpecFloat.S754_finite false 16777215 (-23)] /\
  pass3 f32_arith (eps_of f32_arith dw32_a) w32_a dw32_a <> w32_a.
Proof.
  repeat split; try (vm_compute; reflexivity).
  vm_compute. intros H. discriminate H.
Qed.

(** ** The weights after [compute_hessian] *)

Lemma correction_pure c pn s : (BinaryGateArchitect.correction c pn s).2 = s.
Proof. destruct pn as [[p|] [n|]]; reflexivity. Qed.

Lemma map_m_pure {A B} (f : A -> M B) l :
  (forall x s, (f x s).2 = s) -> forall s, (map_m f l s).2 = s.
Proof.
  intros Hf. induction l as [|x l IH]; intros s; [reflexivity|].
  simpl. unfold bind. pose proof (Hf x s) as Hx.
  destruct (f x s) as [[y|e] s1]; simpl in Hx; subst s1; [|reflexivity].
  pose proof (IH s) as Hl.
  destruct (map_m f l s) as [[ys|e] s2]; simpl in Hl; subst s2; reflexivity.
Qed.

Lemma gated_outcome_ok ws c dw trn_grad_a s r s' :
  gated_outcome ws c dw trn_grad_a s = (Ok r, s') -> s' = stage3 ws c dw s.
Proof.
  unfold gated_outcome. intros H.
  destruct (trn_grad_a (stage1 ws c dw s)) as [pos|e]; [|discriminate].
  destruct (trn_grad_a (stage2 ws c dw s)) as [neg|e]; [|discriminate].
  pose proof (map_m_pure (BinaryGateArchitect.correction c) (zip pos neg)
                (correction_pure c) (stage3 ws c dw s)) as Hp.
  rewrite H in Hp. simpl in Hp. exact Hp.
Qed.

Lemma darts_outcome_ok ws c dw trn_grad_a s r s' :
  darts_outcome ws c dw trn_grad_a s = (Ok r, s') -> s' = stage3 ws c (Some <$> dw) s.
Proof.
  unfold darts_outcome. intros H.
  destruct (trn_grad_a (stage1 ws c (Some <$> dw) s)) as [pos|e]; [|discriminate].
  destruct (all_defined pos); [|discriminate].
  destruct (trn_grad_a (stage2 ws c (Some <$> dw) s)) as [neg|e]; [|discriminate].
  destruct (all_defined neg); [|discriminate].
  inversion H. reflexivity.
Qed.

Lemma stages_same_but_heap ws c dw s :
  same_but_heap s (stage1 ws c dw s) /\ same_but_heap s (stage2 ws c dw s) /\
  same_but_heap s (stage3 ws c dw s).
Proof.
  unfold stage3, stage2, stage1.
  destruct (after_forward_other ws c dw s) as [(G1 & O1 & S1) _].
  destruct (after_backward_other ws c dw (after_forward ws c dw s)) as [(G2 & O2 & S2) _].
  destruct (after_forward_other ws c dw
              (after_backward ws c dw (after_forward ws c dw s))) as [(G3 & O3 & S3) _].
  unfold same_but_heap. rewrite G3, O3, S3, G2, O2, S2, G1, O1, S1. auto.
Qed.

Lemma stage3_after_passes ws c dw s i p :
  NoDup ws -> ws !! i = Some p ->
  heap (stage3 ws c dw s) p = after_passes c dw i (heap s p).
Proof.
  intros Hnd Hp. pose proof (stages_expr_holds ws c dw s i p Hnd Hp) as H.
  unfold stages_expr in H. unfold after_passes.
  destruct (dw !! i) as [[d|]|]; apply H.
Qed.

(** C2 (as amended): when [compute_hessian] returns normally, every tensor
    that is not a perturbed weight has its value from before the call, and
    a perturbed weight holds [((w + eps*dw) - 2.*eps*dw) + eps*dw] as the
    three passes compute it.  When the loss raises after the forward pass
    the error leaves the store at the first stage, and when it raises
    after the backward pass at the second stage: nothing is unwound. *)
Theorem compute_hessian_restoration :
  forall (net_ : net) trn_grad_a (dw : list (option tensor)) (dwd : list tensor)
         (s : world),
    NoDup (weights_cg net_) -> NoDup (weights net_) ->
    some_defined dw -> dwd <> [] ->
    (let ws := weights_cg net_ in
     let c := epsilon (concat (omap (fun d => d) dw)) in
     let run := BinaryGateArchitect.compute_hessian net_ trn_grad_a dw s in
     (forall r s', run = (Ok r, s') ->
        same_but_heap s s' /\
        (forall l, l ∉ ws -> heap s' l = heap s l) /\
        (forall i p, ws !! i = Some p -> heap s' p = after_passes c dw i (heap s p))) /\
     (forall e, trn_grad_a (stage1 ws c dw s) = Err e ->
        run = (Err e, stage1 ws c dw s)) /\
     (forall pos e, trn_grad_a (stage1 ws c dw s) = Ok pos ->
        trn_grad_a (stage2 ws c dw s) = Err e ->
        run = (Err e, stage2 ws c dw s)) /\
     (forall i p d, ws !! i = Some p -> dw !! i = Some (Some d) ->
        heap (stage1 ws c dw s) p = pass1 tnum_arith c (heap s p) d /\
        heap (stage2 ws c dw s) p = pass2 tnum_arith c (heap s p) d))
    /\
    (let ws := weights net_ in
     let c := epsilon (concat dwd) in
     let run := DARTSArchitect.compute_hessian net_ trn_grad_a dwd s in
     (forall r s', run = (Ok r, s') ->
        same_but_heap s s' /\
        (forall l, l ∉ ws -> heap s' l = heap s l) /\
        (forall i p, ws !! i = Some p ->
           heap s' p = after_passes c (Some <$> dwd) i (heap s p))) /\
     (forall e, trn_grad_a (stage1 ws c (Some <$> dwd) s) = Err e ->
        run = (Err e, stage1 ws c (Some <$> dwd) s)) /\
     (forall pos pos' e, trn_grad_a (stage1 ws c (Some <$> dwd) s) = Ok pos ->
        all_defined pos = Some pos' ->
        trn_grad_a (stage2 ws c (Some <$> dwd) s) = Err e ->
        run = (Err e, stage2 ws c (Some <$> dwd) s)) /\
     (forall i p d, ws !! i = Some p -> dwd !! i = Some d ->
        heap (stage1 ws c (Some <$> dwd) s) p = pass1 tnum_arith c (heap s p) d /\
        heap (stage2 ws c (Some <$> dwd) s) p = pass2 tnum_arith c (heap s p) d)).
Proof.
  intros net_ trn_grad_a dw dwd s Hcg Hw Hdef Hne.
  split.
  - destruct (gated_hessian_stages net_ trn_grad_a dw s Hdef Hcg) as [Hrun Hst].
    intros ws c run. subst run. fold ws c in Hrun, Hst. rewrite Hrun.
    split; [|split; [|split]].
    + intros r s' Hok. apply gated_outcome_ok in Hok. subst s'.
      split; [apply stages_same_but_heap|]. split.
      * intros l Hl. apply stages_other, Hl.
      * intros i p Hp. apply stage3_after_passes; assumption.
    + intros e He. unfold gated_outcome. rewrite He. reflexivity.
    + intros pos e Hpos He. unfold gated_outcome. rewrite Hpos, He. reflexivity.
    + intros i p d Hp Hd. specialize (Hst i p Hp). unfold stages_expr in Hst.
      rewrite Hd in Hst. destruct Hst as (H1 & H2 & _). auto.
  - destruct (darts_hessian_stages net_ trn_grad_a dwd s Hne Hw) as [Hrun Hst].
    intros ws c run. subst run. fold ws c in Hrun, Hst. rewrite Hrun.
    split; [|split; [|split]].
    + intros r s' Hok. apply darts_outcome_ok in Hok. subst s'.
      split; [apply stages_same_but_heap|]. split.
      * intros l Hl. apply stages_other, Hl.
      * intros i p Hp. apply stage3_after_passes; assumption.
    + intros e He. unfold darts_outcome. rewrite He. reflexivity.
    + intros pos pos' e Hpos Hall He.
      unfold darts_outcome. rewrite Hpos, Hall, He. reflexivity.
    + intros i p d Hp Hd. specialize (Hst i p Hp). unfold stages_expr in Hst.
      rewrite list_lookup_fmap, Hd in Hst. destruct Hst as (H1 & H2 & _). auto.
Qed.

Lemma epsilon_dw_a : epsilon (concat (omap (fun d => d) dw_a)) = Fin (2 / 1000)%R.
Proof. exact epsilon_3_4. Qed.

Lemma stage1_a_weight :
  heap (stage1 [0; 1] (Fin (2 / 1000)%R) dw_a world_a) 0
  = [Fin (1006 / 1000)%R; Fin (2008 / 1000)%R].
Proof.
  rewrite (stage1_at [0; 1] _ dw_a world_a nodup_0_1 0 0 [Fin 3%R; Fin 4%R] eq_refl eq_refl).
  simpl. repeat f_equal; lra.
Qed.

Lemma compute_hessian_restoration_witness :
  heap (BinaryGateArchitect.compute_hessian net_a bilinear_grad_a dw_a world_a).2 0
    = pass3 tnum_arith (Fin (2 / 1000)%R) [Fin 1%R; Fin 2%R] [Fin 3%R; Fin 4%R] /\
  heap (BinaryGateArchitect.compute_hessian net_a bilinear_grad_a dw_a world_a).2 1
    = [Fin 7%R] /\
  BinaryGateArchitect.compute_hessian net_a failing_grad_a dw_a world_a
    = (Err LossError, stage1 [0; 1] (Fin (2 / 1000)%R) dw_a world_a).
Proof.
  destruct (compute_hessian_restoration net_a bilinear_grad_a dw_a
              [[Fin 3%R; Fin 4%R]] world_a nodup_0_1 nodup_0_1 dw_a_defined
              ltac:(discriminate)) as [(Hok & _) _].
  destruct (compute_hessian_restoration net_a failing_grad_a dw_a
              [[Fin 3%R; Fin 4%R]] world_a nodup_0_1 nodup_0_1 dw_a_defined
              ltac:(discriminate)) as [(_ & Hfail & _) _].
  destruct (BinaryGateArchitect.compute_hessian net_a bilinear_grad_a dw_a world_a)
    as [[r|e] s'] eqn:Hrun.
  - destruct (Hok r s' eq_refl) as (_ & _ & Hat).
    cbn [snd]. split; [|split].
    + rewrite (Hat 0 0 eq_refl). rewrite epsilon_dw_a. reflexivity.
    + rewrite (Hat 1 1 eq_refl). reflexivity.
    + rewrite <- epsilon_dw_a. apply Hfail. reflexivity.
  - exfalso. rewrite gated_compute_hessian_outcome in Hrun.
    simpl in Hrun. unfold gated_outcome, bilinear_grad_a in Hrun. simpl in Hrun.
    discriminate.
Defined.

(** With a loss that raises, the error leaves the weight [[1, 2]] at
    [[1.006, 2.008]]; and on the path without error the three passes,
    computed in binary32, leave [[1, 1.99999988...]], not [[1, 2]]. *)
Lemma compute_hessian_restoration_counterexample :
  (BinaryGateArchitect.compute_hessian net_a failing_grad_a dw_a world_a).1 = Err LossError /\
  heap (BinaryGateArchitect.compute_hessian net_a failing_grad_a dw_a world_a).2 0
    <> heap world_a 0 /\
  pass3 f32_arith (eps_of f32_arith dw32_a) w32_a dw32_a
    = [f32_of_Z 1; SpecFloat.S754_finite false 16777215 (-23)] /\
  pass3 f32_arith (eps_of f32_arith dw32_a) w32_a dw32_a <> w32_a.
Proof.
  assert (BinaryGateArchitect.compute_hessian net_a failing_grad_a dw_a world_a
          = (Err LossError, stage1 [0; 1] (Fin (2 / 1000)%R) dw_a world_a)) as ->.
  { rewrite gated_compute_hessian_outcome, epsilon_dw_a. reflexivity. }
  split; [reflexivity|]. split; [|split].
  - cbn [snd]. rewrite stage1_a_weight. simpl.
    intros H. inversion H. lra.
  - vm_compute. reflexivity.
  - vm_compute. intros H. discriminate H.
Qed.

(** ** A direction without defined entries, and a direction of norm zero *)

Ltac sign_eval :=
  repeat match goal with
    | |- context [sign_of ?r] =>
        first [ rewrite (sign_of_zero r) by lra
              | rewrite (sign_of_pos r) by lra
              | rewrite (sign_of_neg r) by lra ]
    end.

Lemma norm_zero_2 : t_norm [Fin 0%R; Fin 0%R] = Fin 0%R.
Proof.
  change [Fin 0%R; Fin 0%R] with (Fin <$> [0%R; 0%R]).
  rewrite t_norm_fin. f_equal.
  replace (Rsum ((fun r => r * r)%R <$> [0%R; 0%R])) with 0%R
    by (unfold Rsum; simpl; lra).
  apply sqrt_0.
Qed.

(** C4 (as amended): when [dw] has no defined entry, [compute_hessian]
    raises, from the concatenation of an empty list, before it touches the
    store.  When the norm of the defined entries is zero nothing is raised:
    [eps] is [+inf] and the three stages run with it. *)
Theorem compute_hessian_degenerate_direction :
  forall (net_ : net) trn_grad_a (dw : list (option tensor)) (dwd : list tensor)
         (s : world),
    (~ some_defined dw ->
       BinaryGateArchitect.compute_hessian net_ trn_grad_a dw s = (Err RuntimeError, s)) /\
    DARTSArchitect.compute_hessian net_ trn_grad_a [] s = (Err RuntimeError, s) /\
    (some_defined dw -> t_norm (concat (omap (fun d => d) dw)) = Fin 0%R ->
       epsilon (concat (omap (fun d => d) dw)) = PInf /\
       BinaryGateArchitect.compute_hessian net_ trn_grad_a dw s
         = gated_outcome (weights_cg net_) PInf dw trn_grad_a s) /\
    (dwd <> [] -> t_norm (concat dwd) = Fin 0%R ->
       epsilon (concat dwd) = PInf /\
       DARTSArchitect.compute_hessian net_ trn_grad_a dwd s
         = darts_outcome (weights net_) PInf dwd trn_grad_a s).
Proof.
  intros net_ trn_grad_a dw dwd s. split; [|split; [|split]].
  - intros Hnone. rewrite gated_compute_hessian_outcome.
    rewrite (omap_undefined_empty dw Hnone). reflexivity.
  - reflexivity.
  - intros Hdef Hzero. split; [apply epsilon_zero_norm, Hzero|].
    rewrite gated_compute_hessian_outcome.
    pose proof (omap_defined_nonempty dw Hdef) as Hne.
    rewrite (epsilon_zero_norm _ Hzero).
    destruct (omap (fun d => d) dw); [congruence | reflexivity].
  - intros Hne Hzero. split; [apply epsilon_zero_norm, Hzero|].
    rewrite darts_compute_hessian_outcome, (epsilon_zero_norm _ Hzero).
    destruct dwd; [congruence | reflexivity].
Qed.

Lemma none_undefined : ~ some_defined [None].
Proof.
  intros [d Hd]. apply list_elem_of_singleton in Hd. discriminate.
Qed.

Lemma dw_zero_defined : some_defined dw_zero.
Proof. exists [Fin 0%R; Fin 0%R]. left. Qed.

Lemma compute_hessian_degenerate_direction_witness :
  BinaryGateArchitect.compute_hessian net_a bilinear_grad_a [None] world_a
    = (Err RuntimeError, world_a) /\
  BinaryGateArchitect.compute_hessian net_a bilinear_grad_a dw_zero world_a
    = gated_outcome [0; 1] PInf dw_zero bilinear_grad_a world_a /\
  DARTSArchitect.compute_hessian net_a bilinear_grad_a [[Fin 0%R; Fin 0%R]] world_a
    = darts_outcome [0; 1] PInf [[Fin 0%R; Fin 0%R]] bilinear_grad_a world_a.
Proof.
  destruct (compute_hessian_degenerate_direction net_a bilinear_grad_a [None]
              [[Fin 0%R; Fin 0%R]] world_a) as (Hnone & _ & _ & Hd).
  destruct (compute_hessian_degenerate_direction net_a bilinear_grad_a dw_zero
              [[Fin 0%R; Fin 0%R]] world_a) as (_ & _ & Hz & _).
  split; [exact (Hnone none_undefined)|].
  split; [exact (proj2 (Hz dw_zero_defined norm_zero_2))|].
  exact (proj2 (Hd ltac:(discriminate) norm_zero_2)).
Defined.

Lemma stage1_zero_weight : heap (stage1 [0; 1] PInf dw_zero world_a) 0 = [NaN; NaN].
Proof.
  rewrite (stage1_at [0; 1] _ dw_zero world_a nodup_0_1 0 0 [Fin 0%R; Fin 0%R]
             eq_refl eq_refl).
  simpl. sign_eval. reflexivity.
Qed.

Lemma stage2_zero_weight : heap (stage2 [0; 1] PInf dw_zero world_a) 0 = [NaN; NaN].
Proof.
  unfold stage2.
  rewrite (after_backward_at [0; 1] PInf dw_zero _ 0 0 nodup_0_1 eq_refl).
  change (dw_zero !! 0) with (Some (Some [Fin 0%R; Fin 0%R])). cbv beta iota.
  rewrite stage1_zero_weight. reflexivity.
Qed.

Lemma stage3_zero_weight : heap (stage3 [0; 1] PInf dw_zero world_a) 0 = [NaN; NaN].
Proof.
  unfold stage3.
  rewrite (after_forward_at [0; 1] PInf dw_zero _ 0 0 nodup_0_1 eq_refl).
  change (dw_zero !! 0) with (Some (Some [Fin 0%R; Fin 0%R])). cbv beta iota.
  rewrite stage2_zero_weight. reflexivity.
Qed.

Lemma compute_hessian_degenerate_direction_counterexample :
  t_norm (concat (omap (fun d => d) dw_zero)) = Fin 0%R /\
  (BinaryGateArchitect.compute_hessian net_a bilinear_grad_a dw_zero world_a).1
    = Ok [PyTensor [NaN; NaN]] /\
  heap (BinaryGateArchitect.compute_hessian net_a bilinear_grad_a dw_zero world_a).2 0
    = [NaN; NaN].
Proof.
  split; [exact norm_zero_2|].
  rewrite gated_compute_hessian_outcome.
  change (omap (fun d => d) dw_zero) with [[Fin 0%R; Fin 0%R]]. cbv iota.
  change (concat [[Fin 0%R; Fin 0%R]]) with [Fin 0%R; Fin 0%R].
  rewrite (epsilon_zero_norm _ norm_zero_2).
  unfold gated_outcome, bilinear_grad_a.
  change (weights_cg net_a) with [0; 1].
  rewrite stage1_zero_weight, stage2_zero_weight.
  simpl. split; [reflexivity | apply stage3_zero_weight].
Qed.

(** ** The scaling of the correction *)

Lemma stage2_a_weight :
  heap (stage2 [0; 1] (Fin (2 / 1000)%R) dw_a world_a) 0
  = [Fin (994 / 1000)%R; Fin (1992 / 1000)%R].
Proof.
  rewrite (stage2_at [0; 1] (Fin (2 / 1000)%R) dw_a world_a nodup_0_1 0 0
             [Fin 3%R; Fin 4%R] eq_refl eq_refl eq_refl); try (repeat constructor).
  simpl. repeat f_equal; lra.
Qed.

(** C1 (the code at one input): for the bilinear loss [sum (alpha * w0)],
    weights [[1, 2]] and direction [[3, 4]] (so [eps = 0.002]), the alpha
    gradients at [w + eps*dw] and [w - eps*dw] are [[1.006, 2.008]] and
    [[0.994, 1.992]].  Both variants return [((p - n) / 2) * eps], that is
    [[0.000012, 0.000016]], while [(p - n) / (2 * eps)] is [[3, 4]]. *)
Theorem compute_hessian_scaling_evaluated :
  (BinaryGateArchitect.compute_hessian net_a bilinear_grad_a dw_a world_a).1
    = Ok [PyTensor [Fin (12 / 1000000)%R; Fin (16 / 1000000)%R]] /\
  (DARTSArchitect.compute_hessian net_a bilinear_grad_a [[Fin 3%R; Fin 4%R]] world_a).1
    = Ok [[Fin (12 / 1000000)%R; Fin (16 / 1000000)%R]] /\
  bilinear_grad_a (stage1 [0; 1] (Fin (2 / 1000)%R) dw_a world_a)
    = Ok [Some [Fin (1006 / 1000)%R; Fin (2008 / 1000)%R]] /\
  bilinear_grad_a (stage2 [0; 1] (Fin (2 / 1000)%R) dw_a world_a)
    = Ok [Some [Fin (994 / 1000)%R; Fin (1992 / 1000)%R]] /\
  t_div_s (t_sub [Fin (1006 / 1000)%R; Fin (2008 / 1000)%R]
                 [Fin (994 / 1000)%R; Fin (1992 / 1000)%R])
          (tmul (Fin 2%R) (Fin (2 / 1000)%R))
    = [Fin 3%R; Fin 4%R] /\
  [Fin (12 / 1000000)%R; Fin (16 / 1000000)%R] <> [Fin 3%R; Fin 4%R].
Proof.
  assert (forall x, tdiv (Fin x) (Fin 2%R) = Fin (x / 2)%R) as Hhalf.
  { intros x. apply tdiv_fin. lra. }
  split; [|split; [|split; [|split; [|split]]]].
  - rewrite gated_compute_hessian_outcome, epsilon_dw_a.
    change (omap (fun d => d) dw_a) with [[Fin 3%R; Fin 4%R]]. cbv iota.
    unfold gated_outcome, bilinear_grad_a. change (weights_cg net_a) with [0; 1].
    rewrite stage1_a_weight, stage2_a_weight.
    cbn [map_m zip zip_with BinaryGateArchitect.correction bind ret fst snd].
    unfold t_mul_s, t_div_s, t_sub. cbn [zip_with fmap list_fmap tsub].
    rewrite !Hhalf. cbn [tmul]. repeat f_equal; lra.
  - rewrite darts_compute_hessian_outcome.
    change (concat [[Fin 3%R; Fin 4%R]]) with [Fin 3%R; Fin 4%R].
    rewrite epsilon_3_4. cbv iota.
    unfold darts_outcome, bilinear_grad_a. change (weights net_a) with [0; 1].
    change (Some <$> [[Fin 3%R; Fin 4%R]]) with [Some [Fin 3%R; Fin 4%R]].
    assert (forall k (s : world),
              heap (stage1 [0; 1] k [Some [Fin 3%R; Fin 4%R]] s) 0
              = heap (stage1 [0; 1] k dw_a s) 0) as E1.
    { intros k s. unfold stage1.
      rewrite !(after_forward_at [0; 1] k _ s 0 0 nodup_0_1 eq_refl). reflexivity. }
    assert (heap (stage2 [0; 1] (Fin (2 / 1000)%R) [Some [Fin 3%R; Fin 4%R]] world_a) 0
            = [Fin (994 / 1000)%R; Fin (1992 / 1000)%R]) as E3.
    { rewrite (stage2_at [0; 1] (Fin (2 / 1000)%R) [Some [Fin 3%R; Fin 4%R]] world_a
                 nodup_0_1 0 0 [Fin 3%R; Fin 4%R] eq_refl eq_refl eq_refl);
        try (repeat constructor).
      simpl. repeat f_equal; lra. }
    rewrite E1, stage1_a_weight, E3.
    cbn [all_defined fst snd zip_with].
    unfold t_mul_s, t_div_s, t_sub. cbn [zip_with fmap list_fmap tsub].
    rewrite !Hhalf. cbn [tmul]. repeat f_equal; lra.
  - unfold bilinear_grad_a. rewrite stage1_a_weight. reflexivity.
  - unfold bilinear_grad_a. rewrite stage2_a_weight. reflexivity.
  - unfold t_div_s, t_sub. cbn [zip_with fmap list_fmap tsub tmul].
    rewrite !tdiv_fin by lra. repeat f_equal; lra.
  - intros H. inversion H. lra.
Qed.

(** ** The virtual step *)

Lemma ostate_kept_refl s : ostate_kept s s.
Proof. split; auto. Qed.

Lemma ostate_kept_trans s1 s2 s3 :
  ostate_kept s1 s2 -> ostate_kept s2 s3 -> ostate_kept s1 s3.
Proof.
  intros [A1 B1] [A2 B2]. split.
  - intros k d H. apply A2, A1, H.
  - intros k. rewrite B2. apply B1.
Qed.

Lemma frame_outside_refl V s : frame_outside V s s.
Proof. unfold frame_outside. auto using ostate_kept_refl. Qed.

Lemma frame_outside_trans V s1 s2 s3 :
  frame_outside V s1 s2 -> frame_outside V s2 s3 -> frame_outside V s1 s3.
Proof.
  intros (H1 & G1 & S1 & O1) (H2 & G2 & S2 & O2). repeat split.
  - intros l Hl. rewrite H2, H1 by exact Hl. reflexivity.
  - congruence.
  - congruence.
  - apply (ostate_kept_trans _ _ _ O1 O2).
  - apply (ostate_kept_trans _ _ _ O1 O2).
Qed.

Lemma state_getitem_spec w s :
  exists s1, state_getitem w s = (Ok (default ∅ (ostate s !! w)), s1) /\
    heap s1 = heap s /\ grad s1 = grad s /\ sops s1 = sops s /\ ostate_kept s s1.
Proof.
  unfold state_getitem. destruct (ostate s !! w) as [d|] eqn:E.
  - exists s. simpl. auto using ostate_kept_refl.
  - eexists. split; [reflexivity|].
    unfold ostate_kept, set_ostate. cbn [heap grad sops ostate]. repeat split.
    + intros k d Hk. rewrite lookup_insert_ne; [exact Hk|]. congruence.
    + intros k. destruct (decide (w = k)) as [->|Hne].
      * rewrite lookup_insert_eq, E. reflexivity.
      * rewrite lookup_insert_ne by exact Hne. reflexivity.
Qed.

(** One iteration of the loop of [virtual_step]. *)
Lemma virtual_update_spec mu wd xi w vw g s :
  exists s', DARTSArchitect.virtual_update mu wd xi (w, vw, g) s = (Ok tt, s') /\
    heap s' vw = virtual_weight wd xi (momentum_term mu s w) (heap s w) g /\
    (forall l, l <> vw -> heap s' l = heap s l) /\
    grad s' = grad s /\ sops s' = sops s /\ ostate_kept s s'.
Proof.
  unfold DARTSArchitect.virtual_update.
  destruct (state_getitem_spec w s) as (s1 & Hget & Hh & Hg & Hs & Ho).
  eexists. split.
  { erewrite bind_ok by exact Hget. unfold bind, read, copy_, write. reflexivity. }
  simpl. rewrite Hh. repeat split.
  - apply fn_lookup_insert.
  - intros l Hl. apply fn_lookup_insert_ne. congruence.
  - exact Hg.
  - exact Hs.
  - apply Ho.
  - apply Ho.
Qed.

Lemma gated_virtual_update_eq :
  BinaryGateArchitect.virtual_update = DARTSArchitect.virtual_update.
Proof. reflexivity. Qed.

Lemma momentum_term_kept mu s s' w :
  ostate_kept s s' -> momentum_term mu s' w = momentum_term mu s w.
Proof. intros [_ H]. unfold momentum_term. rewrite H. reflexivity. Qed.

(** The loop of [virtual_step] runs to its end and changes only virtual
    weights. *)
Lemma virtual_loop_frame mu wd xi ws vws gs s :
  exists s', for_each (DARTSArchitect.virtual_update mu wd xi) (zip (zip ws vws) gs) s
             = (Ok tt, s') /\ frame_outside vws s s'.
Proof.
  revert vws gs s. induction ws as [|w ws IH]; intros vws gs s.
  { exists s. split; [reflexivity | apply frame_outside_refl]. }
  destruct vws as [|vw vws]; [exists s; split; [reflexivity | apply frame_outside_refl]|].
  destruct gs as [|g gs]; [exists s; split; [reflexivity | apply frame_outside_refl]|].
  change (zip (zip (w :: ws) (vw :: vws)) (g :: gs))
    with ((w, vw, g) :: zip (zip ws vws) gs).
  destruct (virtual_update_spec mu wd xi w vw g s) as (s1 & Hrun & _ & Hne & Hg & Hs & Ho).
  destruct (IH vws gs s1) as (s' & Hrun' & Hfr).
  exists s'. split.
  { simpl. erewrite bind_ok by exact Hrun. exact Hrun'. }
  apply (frame_outside_trans _ s s1 s').
  - repeat split; try assumption; try apply Ho.
    intros l Hl. apply Hne. intros ->. apply Hl. left.
  - destruct Hfr as (Hh & Hrest). split; [|exact Hrest].
    intros l Hl. apply Hh. intros Hin. apply Hl. right. exact Hin.
Qed.

(** With distinct virtual weights, none of them a real weight, each
    virtual weight ends at the momentum-SGD value of its real weight. *)
Lemma virtual_loop_values mu wd xi ws vws gs s s' :
  NoDup vws -> (forall w, w ∈ ws -> w ∉ vws) ->
  for_each (DARTSArchitect.virtual_update mu wd xi) (zip (zip ws vws) gs) s = (Ok tt, s') ->
  forall i w vw g, ws !! i = Some w -> vws !! i = Some vw -> gs !! i = Some g ->
    heap s' vw = virtual_weight wd xi (momentum_term mu s w) (heap s w) g.
Proof.
  revert vws gs s. induction ws as [|w0 ws IH]; intros vws gs s Hnd Hdis Hrun i w vw g Hw Hvw Hg.
  { rewrite lookup_nil in Hw. discriminate. }
  destruct vws as [|vw0 vws]; [rewrite lookup_nil in Hvw; discriminate|].
  destruct gs as [|g0 gs]; [rewrite lookup_nil in Hg; discriminate|].
  change (zip (zip (w0 :: ws) (vw0 :: vws)) (g0 :: gs))
    with ((w0, vw0, g0) :: zip (zip ws vws) gs) in Hrun.
  destruct (virtual_update_spec mu wd xi w0 vw0 g0 s) as (s1 & Hrun1 & Hat & Hne & _ & _ & Ho).
  simpl in Hrun. erewrite bind_ok in Hrun by exact Hrun1.
  pose proof (NoDup_cons_1_1 _ _ Hnd) as Hvw0. apply NoDup_cons_1_2 in Hnd.
  destruct i as [|i]; simpl in Hw, Hvw, Hg.
  - inversion Hw; inversion Hvw; inversion Hg; subst.
    destruct (virtual_loop_frame mu wd xi ws vws gs s1) as (s2 & Hrun2 & Hfr).
    rewrite Hrun in Hrun2. inversion Hrun2; subst s2.
    destruct Hfr as (Hh & _). rewrite Hh by exact Hvw0. exact Hat.
  - assert (forall w1, w1 ∈ ws -> w1 ∉ vws) as Hdis'.
    { intros w1 Hw1 Hin. apply (Hdis w1); [right; exact Hw1 | right; exact Hin]. }
    rewrite (IH vws gs s1 Hnd Hdis' Hrun i w vw g Hw Hvw Hg).
    rewrite (momentum_term_kept mu s s1 w Ho).
    assert (w <> vw0) as Hwv.
    { intros ->. apply (Hdis vw0); [right; eapply list_elem_of_lookup_2; exact Hw | left]. }
    rewrite (Hne w Hwv). reflexivity.
Qed.

(** The loop that synchronises the alphas of the virtual model. *)
Lemma sync_step_spec a va s :
  exists s', (x <- read a ;; copy_ va x) s = (Ok tt, s') /\
    heap s' va = heap s a /\ (forall l, l <> va -> heap s' l = heap s l) /\
    grad s' = grad s /\ sops s' = sops s /\ ostate s' = ostate s.
Proof.
  eexists. split; [reflexivity|]. simpl. repeat split.
  - apply fn_lookup_insert.
  - intros l Hl. apply fn_lookup_insert_ne. congruence.
Qed.

Lemma sync_loop_frame avs vas s :
  exists s', for_each (fun '(a, va) => x <- read a ;; copy_ va x) (zip avs vas) s
             = (Ok tt, s') /\ frame_outside vas s s'.
Proof.
  revert vas s. induction avs as [|a avs IH]; intros vas s.
  { exists s. split; [reflexivity | apply frame_outside_refl]. }
  destruct vas as [|va vas]; [exists s; split; [reflexivity | apply frame_outside_refl]|].
  change (zip (a :: avs) (va :: vas)) with ((a, va) :: zip avs vas).
  destruct (sync_step_spec a va s) as (s1 & Hrun & _ & Hne & Hg & Hs & Ho).
  destruct (IH vas s1) as (s' & Hrun' & Hfr).
  exists s'. split.
  { simpl. erewrite bind_ok by exact Hrun. exact Hrun'. }
  apply (frame_outside_trans _ s s1 s').
  - repeat split; try assumption.
    + intros l Hl. apply Hne. intros ->. apply Hl. left.
    + intros k d Hk. rewrite Ho. exact Hk.
    + intros k. rewrite Ho. reflexivity.
  - destruct Hfr as (Hh & Hrest). split; [|exact Hrest].
    intros l Hl. apply Hh. intros Hin. apply Hl. right. exact Hin.
Qed.

Lemma sync_loop_values avs vas s s' :
  NoDup vas -> (forall a, a ∈ avs -> a ∉ vas) ->
  for_each (fun '(a, va) => x <- read a ;; copy_ va x) (zip avs vas) s = (Ok tt, s') ->
  forall i a va, avs !! i = Some a -> vas !! i = Some va -> heap s' va = heap s a.
Proof.
  revert vas s. induction avs as [|a0 avs IH]; intros vas s Hnd Hdis Hrun i a va Ha Hva.
  { rewrite lookup_nil in Ha. discriminate. }
  destruct vas as [|va0 vas]; [rewrite lookup_nil in Hva; discriminate|].
  change (zip (a0 :: avs) (va0 :: vas)) with ((a0, va0) :: zip avs vas) in Hrun.
  destruct (sync_step_spec a0 va0 s) as (s1 & Hrun1 & Hat & Hne & _).
  simpl in Hrun. erewrite bind_ok in Hrun by exact Hrun1.
  pose proof (NoDup_cons_1_1 _ _ Hnd) as Hva0. apply NoDup_cons_1_2 in Hnd.
  destruct i as [|i]; simpl in Ha, Hva.
  - inversion Ha; inversion Hva; subst.
    destruct (sync_loop_frame avs vas s1) as (s2 & Hrun2 & Hfr).
    rewrite Hrun in Hrun2. inversion Hrun2; subst s2.
    destruct Hfr as (Hh & _). rewrite Hh by exact Hva0. exact Hat.
  - assert (forall a1, a1 ∈ avs -> a1 ∉ vas) as Hdis'.
    { intros a1 Ha1 Hin. apply (Hdis a1); [right; exact Ha1 | right; exact Hin]. }
    rewrite (IH vas s1 Hnd Hdis' Hrun i a va Ha Hva).
    apply Hne. intros ->.
    apply (Hdis va0); [right; eapply list_elem_of_lookup_2; exact Ha | left].
Qed.

Lemma frame_outside_weaken V V' s s' :
  (forall l, l ∈ V -> l ∈ V') -> frame_outside V s s' -> frame_outside V' s s'.
Proof.
  intros Hsub (Hh & Hrest). split; [|exact Hrest].
  intros l Hl. apply Hh. intros Hin. apply Hl, Hsub, Hin.
Qed.

(** [virtual_step] of the DARTS variant, whatever its outcome, changes only
    the weights and alphas of the virtual model. *)
Lemma darts_virtual_step_frame (net_ v_net : net) mu wd trn_grad_w xi s :
  frame_outside (weights v_net ++ alphas v_net) s
    (exec (DARTSArchitect.virtual_step net_ v_net mu wd trn_grad_w xi) s).
Proof.
  unfold exec, DARTSArchitect.virtual_step. rewrite bind_autograd_grad.
  destruct (trn_grad_w s) as [gs|e]; [|apply frame_outside_refl].
  destruct (all_defined gs) as [ts|]; [|apply frame_outside_refl].
  destruct (virtual_loop_frame mu wd xi (weights net_) (weights v_net) ts s)
    as (s1 & Hrun1 & Hfr1).
  erewrite bind_ok by exact Hrun1.
  destruct (sync_loop_frame (alphas net_) (alphas v_net) s1) as (s2 & Hrun2 & Hfr2).
  rewrite Hrun2. simpl.
  apply (frame_outside_trans _ s s1 s2).
  - apply (frame_outside_weaken (weights v_net)); [|exact Hfr1].
    intros l Hl. apply elem_of_app. left. exact Hl.
  - apply (frame_outside_weaken (alphas v_net)); [|exact Hfr2].
    intros l Hl. apply elem_of_app. right. exact Hl.
Qed.

Lemma gated_virtual_step_frame (net_ v_net : net) mu wd trn_grad_w xi s :
  frame_outside (weights_cg v_net) s
    (exec (BinaryGateArchitect.virtual_step net_ v_net mu wd trn_grad_w xi) s).
Proof.
  unfold exec, BinaryGateArchitect.virtual_step. rewrite bind_autograd_grad.
  destruct (trn_grad_w s) as [gs|e]; [|apply frame_outside_refl].
  destruct (all_defined gs) as [ts|]; [|apply frame_outside_refl].
  rewrite gated_virtual_update_eq.
  destruct (virtual_loop_frame mu wd xi (weights_cg net_) (weights_cg v_net) ts s)
    as (s1 & Hrun1 & Hfr1).
  rewrite Hrun1. exact Hfr1.
Qed.

(** The optimizer state after the loop of [virtual_step]. *)
Lemma virtual_update_ostate mu wd xi w vw g s k :
  ostate (exec (DARTSArchitect.virtual_update mu wd xi (w, vw, g)) s) !! k
  = if decide (k = w) then Some (default ∅ (ostate s !! w)) else ostate s !! k.
Proof.
  unfold exec, DARTSArchitect.virtual_update, bind, state_getitem, read, copy_, write.
  destruct (ostate s !! w) as [d|] eqn:E; cbn [snd ostate set_heap set_ostate].
  - destruct (decide (k = w)) as [->|Hne]; [exact E | reflexivity].
  - destruct (decide (k = w)) as [->|Hne].
    + apply lookup_insert_eq.
    + apply lookup_insert_ne. congruence.
Qed.

Lemma virtual_loop_ostate mu wd xi ws vws gs s :
  state_after_reads (weights_read ws vws gs) s
    (exec (for_each (DARTSArchitect.virtual_update mu wd xi) (zip (zip ws vws) gs)) s).
Proof.
  unfold state_after_reads, weights_read.
  revert vws gs s. induction ws as [|w ws IH]; intros vws gs s k.
  { rewrite take_nil. rewrite decide_False by apply not_elem_of_nil.
    destruct vws, gs; reflexivity. }
  destruct vws as [|vw vws].
  { cbn [length Nat.min take]. rewrite decide_False by apply not_elem_of_nil. reflexivity. }
  destruct gs as [|g gs].
  { rewrite Nat.min_0_r. cbn [take]. rewrite decide_False by apply not_elem_of_nil.
    reflexivity. }
  change (zip (zip (w :: ws) (vw :: vws)) (g :: gs))
    with ((w, vw, g) :: zip (zip ws vws) gs).
  cbn [length]. rewrite <- Nat.succ_min_distr. cbn [take].
  destruct (virtual_update_spec mu wd xi w vw g s) as (s1 & Hrun & _).
  pose proof (virtual_update_ostate mu wd xi w vw g s) as H1.
  unfold exec in *. cbn [for_each]. unfold bind. rewrite Hrun in *. cbn [snd] in H1.
  rewrite (IH vws gs s1 k), !H1.
  destruct (decide (k = w)) as [->|Hne].
  - rewrite (decide_True (P := w ∈ w :: _)) by left.
    destruct (decide (w ∈ take (length vws `min` length gs) ws)); reflexivity.
  - destruct (decide (k ∈ take (length vws `min` length gs) ws)) as [Hin|Hout].
    + rewrite decide_True by (right; exact Hin). reflexivity.
    + rewrite decide_False; [reflexivity|].
      intros Hk. apply elem_of_cons in Hk as [Hk|Hk]; [exact (Hne Hk) | exact (Hout Hk)].
Qed.

Lemma sync_loop_ostate avs vas s :
  ostate (exec (for_each (fun '(a, va) => x <- read a ;; copy_ va x) (zip avs vas)) s)
  = ostate s.
Proof.
  revert vas s. induction avs as [|a avs IH]; intros vas s; [reflexivity|].
  destruct vas as [|va vas]; [reflexivity|].
  change (zip (a :: avs) (va :: vas)) with ((a, va) :: zip avs vas).
  destruct (sync_step_spec a va s) as (s1 & Hrun & _ & _ & _ & _ & Ho).
  unfold exec in *. cbn [for_each]. unfold bind at 1. rewrite Hrun.
  rewrite (IH vas s1). exact Ho.
Qed.

Lemma darts_virtual_step_ostate (net_ v_net : net) mu wd trn_grad_w xi s gs ts :
  trn_grad_w s = Ok gs -> all_defined gs = Some ts ->
  state_after_reads (weights_read (weights net_) (weights v_net) ts) s
    (exec (DARTSArchitect.virtual_step net_ v_net mu wd trn_grad_w xi) s).
Proof.
  intros Hgs Hts k.
  unfold exec, DARTSArchitect.virtual_step. rewrite bind_autograd_grad, Hgs, Hts.
  destruct (virtual_loop_frame mu wd xi (weights net_) (weights v_net) ts s)
    as (s1 & Hrun1 & _).
  pose proof (virtual_loop_ostate mu wd xi (weights net_) (weights v_net) ts s k) as H1.
  unfold exec in H1. rewrite Hrun1 in H1. cbn [snd] in H1.
  erewrite bind_ok by exact Hrun1.
  pose proof (sync_loop_ostate (alphas net_) (alphas v_net) s1) as H2.
  unfold exec in H2. rewrite H2. exact H1.
Qed.

Lemma gated_virtual_step_ostate (net_ v_net : net) mu wd trn_grad_w xi s gs ts :
  trn_grad_w s = Ok gs -> all_defined gs = Some ts ->
  state_after_reads (weights_read (weights_cg net_) (weights_cg v_net) ts) s
    (exec (BinaryGateArchitect.virtual_step net_ v_net mu wd trn_grad_w xi) s).
Proof.
  intros Hgs Hts k.
  unfold exec, BinaryGateArchitect.virtual_step. rewrite bind_autograd_grad, Hgs, Hts.
  rewrite gated_virtual_update_eq.
  apply (virtual_loop_ostate mu wd xi (weights_cg net_) (weights_cg v_net) ts s k).
Qed.

(** C7 (as amended): [virtual_step], in either variant and whether or not
    it raises, changes the value of no tensor other than the weights of
    the virtual model (and, in the DARTS variant, its alphas); since the
    virtual model shares no tensor with the real one, no real weight or
    alpha changes.  Gradient fields are untouched, every entry of the
    optimizer state keeps its value, and every momentum buffer reads as
    before.  The optimizer state is not left as it was: evaluating
    [w_optim.state[w]] stores an empty dict under every real weight of the
    loop that had no entry. *)
Theorem virtual_step_frame :
  forall (net_ v_net : net) (mu wd : tnum) trn_grad_w (xi : tnum) (s : world),
    (let s' := exec (DARTSArchitect.virtual_step net_ v_net mu wd trn_grad_w xi) s in
     frame_outside (weights v_net ++ alphas v_net) s s' /\
     (forall w, momentum_term mu s' w = momentum_term mu s w) /\
     ((forall l, l ∈ weights net_ ++ alphas net_ ->
                 l ∉ weights v_net ++ alphas v_net) ->
      forall l, l ∈ weights net_ ++ alphas net_ -> heap s' l = heap s l) /\
     (forall gs ts, trn_grad_w s = Ok gs -> all_defined gs = Some ts ->
        state_after_reads (weights_read (weights net_) (weights v_net) ts) s s'))
    /\
    (let s' := exec (BinaryGateArchitect.virtual_step net_ v_net mu wd trn_grad_w xi) s in
     frame_outside (weights_cg v_net) s s' /\
     (forall w, momentum_term mu s' w = momentum_term mu s w) /\
     ((forall l, l ∈ weights net_ ++ weights_cg net_ ++ alphas net_ ->
                 l ∉ weights_cg v_net) ->
      forall l, l ∈ weights net_ ++ weights_cg net_ ++ alphas net_ ->
                heap s' l = heap s l) /\
     (forall gs ts, trn_grad_w s = Ok gs -> all_defined gs = Some ts ->
        state_after_reads (weights_read (weights_cg net_) (weights_cg v_net) ts) s s')).
Proof.
  intros net_ v_net mu wd trn_grad_w xi s. split.
  - pose proof (darts_virtual_step_frame net_ v_net mu wd trn_grad_w xi s) as Hfr.
    intros s'. fold s' in Hfr. split; [exact Hfr|].
    destruct Hfr as (Hh & _ & _ & Ho). split; [|split].
    + intros w. apply momentum_term_kept, Ho.
    + intros Hdis l Hl. apply Hh, Hdis, Hl.
    + intros gs ts Hgs Hts. apply (darts_virtual_step_ostate _ _ _ _ _ _ _ gs); assumption.
  - pose proof (gated_virtual_step_frame net_ v_net mu wd trn_grad_w xi s) as Hfr.
    intros s'. fold s' in Hfr. split; [exact Hfr|].
    destruct Hfr as (Hh & _ & _ & Ho). split; [|split].
    + intros w. apply momentum_term_kept, Ho.
    + intros Hdis l Hl. apply Hh, Hdis, Hl.
    + intros gs ts Hgs Hts. apply (gated_virtual_step_ostate _ _ _ _ _ _ _ gs); assumption.
Qed.

Lemma disjoint_b : forall l, l ∈ [0; 1] ++ [2] -> l ∉ [10; 11] ++ [12].
Proof. intros l Hl Hv. set_unfold. lia. Qed.

Lemma disjoint_b_gated : forall l, l ∈ [0; 1] ++ [0; 1] ++ [2] -> l ∉ [10; 11].
Proof. intros l Hl Hv. set_unfold. lia. Qed.

Lemma virtual_step_frame_witness :
  heap (exec (DARTSArchitect.virtual_step net_b v_net_b (Fin 0%R) (Fin 0%R) grad_w_b
                (Fin (1 / 10)%R)) world_b) 0 = [Fin 1%R] /\
  heap (exec (DARTSArchitect.virtual_step net_b v_net_b (Fin 0%R) (Fin 0%R) grad_w_b
                (Fin (1 / 10)%R)) world_b) 2 = [Fin 3%R; Fin 5%R] /\
  heap (exec (BinaryGateArchitect.virtual_step net_b v_net_b (Fin 0%R) (Fin 0%R) grad_w_b
                (Fin (1 / 10)%R)) world_b) 1 = [Fin 2%R] /\
  ostate (exec (BinaryGateArchitect.virtual_step net_b v_net_b (Fin 0%R) (Fin 0%R) grad_w_b
                  (Fin (1 / 10)%R)) world_b) !! 1 = Some ∅.
Proof.
  destruct (virtual_step_frame net_b v_net_b (Fin 0%R) (Fin 0%R) grad_w_b
              (Fin (1 / 10)%R) world_b) as [(_ & _ & Hd & _) (_ & _ & Hg & Ho)].
  split; [|split; [|split]].
  - apply (Hd disjoint_b 0). set_unfold. auto.
  - apply (Hd disjoint_b 2). set_unfold. auto.
  - apply (Hg disjoint_b_gated 1). set_unfold. auto.
  - rewrite (Ho _ _ eq_refl eq_refl 1). reflexivity.
Defined.

(** With an optimizer that holds no state yet, [virtual_step] leaves an
    empty entry under each real weight: [w_optim.state] has changed. *)
Lemma virtual_step_frame_counterexample :
  ostate world_b !! 0 = None /\
  ostate (exec (DARTSArchitect.virtual_step net_b v_net_b (Fin 0%R) (Fin 0%R) grad_w_b
                  (Fin (1 / 10)%R)) world_b) !! 0 = Some ∅ /\
  ostate (exec (BinaryGateArchitect.virtual_step net_b v_net_b (Fin 0%R) (Fin 0%R) grad_w_b
                  (Fin (1 / 10)%R)) world_b) !! 0 = Some ∅ /\
  ostate (exec (DARTSArchitect.virtual_step net_b v_net_b (Fin 0%R) (Fin 0%R) grad_w_b
                  (Fin (1 / 10)%R)) world_b) <> ostate world_b.
Proof.
  pose proof (darts_virtual_step_ostate net_b v_net_b (Fin 0%R) (Fin 0%R) grad_w_b
                (Fin (1 / 10)%R) world_b _ _ eq_refl eq_refl 0) as Hd.
  pose proof (gated_virtual_step_ostate net_b v_net_b (Fin 0%R) (Fin 0%R) grad_w_b
                (Fin (1 / 10)%R) world_b _ _ eq_refl eq_refl 0) as Hg.
  split; [reflexivity|]. split; [exact Hd|]. split; [exact Hg|].
  intros Heq. rewrite Heq in Hd. discriminate Hd.
Qed.

Lemma darts_virtual_step_values (net_ v_net : net) mu wd trn_grad_w xi s gs ts :
  trn_grad_w s = Ok gs -> all_defined gs = Some ts ->
  NoDup (weights v_net ++ alphas v_net) ->
  (forall w, w ∈ weights net_ -> w ∉ weights v_net) ->
  exists s', DARTSArchitect.virtual_step net_ v_net mu wd trn_grad_w xi s = (Ok tt, s') /\
    forall i w vw g, weights net_ !! i = Some w -> weights v_net !! i = Some vw ->
      ts !! i = Some g ->
      heap s' vw = virtual_weight wd xi (momentum_term mu s w) (heap s w) g.
Proof.
  intros Hgs Hts Hnd Hdis.
  apply list.NoDup_app in Hnd as (Hndw & Hwa & Hnda).
  unfold DARTSArchitect.virtual_step.
  destruct (virtual_loop_frame mu wd xi (weights net_) (weights v_net) ts s)
    as (s1 & Hrun1 & Hfr1).
  destruct (sync_loop_frame (alphas net_) (alphas v_net) s1) as (s2 & Hrun2 & Hfr2).
  exists s2. split.
  { rewrite bind_autograd_grad, Hgs, Hts. erewrite bind_ok by exact Hrun1. exact Hrun2. }
  intros i w vw g Hw Hvw Hg.
  destruct Hfr2 as (Hh2 & _). rewrite Hh2.
  - apply (virtual_loop_values mu wd xi _ _ _ s s1 Hndw Hdis Hrun1 i w vw g Hw Hvw Hg).
  - apply Hwa. eapply list_elem_of_lookup_2. exact Hvw.
Qed.

Lemma gated_virtual_step_values (net_ v_net : net) mu wd trn_grad_w xi s gs ts :
  trn_grad_w s = Ok gs -> all_defined gs = Some ts ->
  NoDup (weights_cg v_net) ->
  (forall w, w ∈ weights_cg net_ -> w ∉ weights_cg v_net) ->
  exists s', BinaryGateArchitect.virtual_step net_ v_net mu wd trn_grad_w xi s = (Ok tt, s') /\
    forall i w vw g, weights_cg net_ !! i = Some w -> weights_cg v_net !! i = Some vw ->
      ts !! i = Some g ->
      heap s' vw = virtual_weight wd xi (momentum_term mu s w) (heap s w) g.
Proof.
  intros Hgs Hts Hnd Hdis.
  unfold BinaryGateArchitect.virtual_step. rewrite gated_virtual_update_eq.
  destruct (virtual_loop_frame mu wd xi (weights_cg net_) (weights_cg v_net) ts s)
    as (s1 & Hrun1 & Hfr1).
  exists s1. split.
  { rewrite bind_autograd_grad, Hgs, Hts. exact Hrun1. }
  intros i w vw g Hw Hvw Hg.
  apply (virtual_loop_values mu wd xi _ _ _ s s1 Hnd Hdis Hrun1 i w vw g Hw Hvw Hg).
Qed.

Lemma nodup_b : NoDup ([10; 11] ++ [12]).
Proof. apply (bool_decide_unpack _). vm_compute. exact I. Qed.

Lemma nodup_b_cg : NoDup [10; 11].
Proof. apply (bool_decide_unpack _). vm_compute. exact I. Qed.

Lemma disjoint_b_weights : forall w, w ∈ [0; 1] -> w ∉ [10; 11].
Proof. intros l Hl Hv. set_unfold. lia. Qed.

Lemma scenario_1_values (r : R) :
  virtual_weight (Fin 0%R) (Fin (1 / 10)%R) (momentum_term (Fin r) world_b 0)
    [Fin 1%R] [Fin (5 / 10)%R] = [Fin (95 / 100)%R] /\
  virtual_weight (Fin 0%R) (Fin (1 / 10)%R) (momentum_term (Fin r) world_b 1)
    [Fin 2%R] [Fin (5 / 10)%R] = [Fin (195 / 100)%R].
Proof.
  unfold virtual_weight, momentum_term. simpl. split; repeat f_equal; lra.
Qed.

(** C6: after [virtual_step], in either variant, each virtual weight holds
    [w - xi * (m + g + weight_decay * w)], where [m] is the momentum buffer
    of [w] times the momentum coefficient, the buffer being [0.] when the
    optimizer state of [w] has none; and for weights [1.0] and [2.0]
    without buffers, no weight decay, gradients [0.5] and [xi = 0.1] the
    virtual weights are [0.95] and [1.95]. *)
Theorem virtual_step_formula :
  (forall r : R,
     heap (exec (DARTSArchitect.virtual_step net_b v_net_b (Fin r) (Fin 0%R) grad_w_b
                   (Fin (1 / 10)%R)) world_b) 10 = [Fin (95 / 100)%R] /\
     heap (exec (DARTSArchitect.virtual_step net_b v_net_b (Fin r) (Fin 0%R) grad_w_b
                   (Fin (1 / 10)%R)) world_b) 11 = [Fin (195 / 100)%R] /\
     heap (exec (BinaryGateArchitect.virtual_step net_b v_net_b (Fin r) (Fin 0%R) grad_w_b
                   (Fin (1 / 10)%R)) world_b) 10 = [Fin (95 / 100)%R] /\
     heap (exec (BinaryGateArchitect.virtual_step net_b v_net_b (Fin r) (Fin 0%R) grad_w_b
                   (Fin (1 / 10)%R)) world_b) 11 = [Fin (195 / 100)%R])
  /\
  forall (net_ v_net : net) (mu wd : tnum) trn_grad_w (xi : tnum) (s : world) gs ts,
    trn_grad_w s = Ok gs -> all_defined gs = Some ts ->
    (NoDup (weights v_net ++ alphas v_net) ->
     (forall w, w ∈ weights net_ -> w ∉ weights v_net) ->
     exists s',
       DARTSArchitect.virtual_step net_ v_net mu wd trn_grad_w xi s = (Ok tt, s') /\
       forall i w vw g, weights net_ !! i = Some w -> weights v_net !! i = Some vw ->
         ts !! i = Some g ->
         heap s' vw = virtual_weight wd xi (momentum_term mu s w) (heap s w) g)
    /\
    (NoDup (weights_cg v_net) ->
     (forall w, w ∈ weights_cg net_ -> w ∉ weights_cg v_net) ->
     exists s',
       BinaryGateArchitect.virtual_step net_ v_net mu wd trn_grad_w xi s = (Ok tt, s') /\
       forall i w vw g, weights_cg net_ !! i = Some w -> weights_cg v_net !! i = Some vw ->
         ts !! i = Some g ->
         heap s' vw = virtual_weight wd xi (momentum_term mu s w) (heap s w) g)
    /\
    (forall w,
       match default ∅ (ostate s !! w) !! "momentum_buffer" with
       | Some b => momentum_term mu s w = PyTensor (t_mul_s b mu)
       | None => momentum_term mu s w = PyNum (tmul (Fin 0%R) mu)
       end).
Proof.
  split.
  - intros r.
    destruct (darts_virtual_step_values net_b v_net_b (Fin r) (Fin 0%R) grad_w_b
                (Fin (1 / 10)%R) world_b _ _ eq_refl eq_refl nodup_b disjoint_b_weights)
      as (s1 & Hrun1 & Hv1).
    destruct (gated_virtual_step_values net_b v_net_b (Fin r) (Fin 0%R) grad_w_b
                (Fin (1 / 10)%R) world_b _ _ eq_refl eq_refl nodup_b_cg disjoint_b_weights)
      as (s2 & Hrun2 & Hv2).
    unfold exec. rewrite Hrun1, Hrun2. cbn [snd].
    destruct (scenario_1_values r) as [E0 E1].
    rewrite (Hv1 0 0 10 _ eq_refl eq_refl eq_refl).
    rewrite (Hv1 1 1 11 _ eq_refl eq_refl eq_refl).
    rewrite (Hv2 0 0 10 _ eq_refl eq_refl eq_refl).
    rewrite (Hv2 1 1 11 _ eq_refl eq_refl eq_refl).
    auto.
  - intros net_ v_net mu wd trn_grad_w xi s gs ts Hgs Hts. split; [|split].
    + intros Hnd Hdis. eapply darts_virtual_step_values; eassumption.
    + intros Hnd Hdis. eapply gated_virtual_step_values; eassumption.
    + intros w. unfold momentum_term, dict_get.
      destruct (default ∅ (ostate s !! w) !! "momentum_buffer"); reflexivity.
Qed.

Lemma virtual_step_formula_witness :
  exists s',
    DARTSArchitect.virtual_step net_b v_net_b (Fin (9 / 10)%R) (Fin 0%R) grad_w_b
      (Fin (1 / 10)%R) world_b = (Ok tt, s') /\
    heap s' 10 = [Fin (95 / 100)%R] /\ heap s' 11 = [Fin (195 / 100)%R].
Proof.
  destruct virtual_step_formula as [_ Hgen].
  destruct (Hgen net_b v_net_b (Fin (9 / 10)%R) (Fin 0%R) grad_w_b (Fin (1 / 10)%R)
              world_b _ _ eq_refl eq_refl) as (Hd & _ & _).
  destruct (Hd nodup_b disjoint_b_weights) as (s' & Hrun & Hv).
  exists s'. split; [exact Hrun|].
  destruct (scenario_1_values (9 / 10)%R) as [E0 E1].
  rewrite (Hv 0 0 10 _ eq_refl eq_refl eq_refl).
  rewrite (Hv 1 1 11 _ eq_refl eq_refl eq_refl).
  auto.
Defined.

(** ** The alphas of the virtual model *)

(** [compute_hessian] of the DARTS variant writes to the weights of the
    real model only. *)
Lemma darts_compute_hessian_frame (net_ : net) trn_grad_a (dw : list tensor) s l :
  l ∉ weights net_ ->
  heap (exec (DARTSArchitect.compute_hessian net_ trn_grad_a dw) s) l = heap s l.
Proof.
  intros Hl. unfold exec. rewrite darts_compute_hessian_outcome.
  destruct dw as [|d0 ds]; [reflexivity|].
  destruct (stages_other (weights net_) (epsilon (concat (d0 :: ds)))
              (Some <$> d0 :: ds) s l Hl) as (H1 & H2 & H3).
  unfold darts_outcome.
  destruct (trn_grad_a (stage1 _ _ _ s)) as [pos|e]; [|exact H1].
  destruct (all_defined pos); [|exact H1].
  destruct (trn_grad_a (stage2 _ _ _ s)) as [neg|e]; [|exact H2].
  destruct (all_defined neg); [exact H3 | exact H2].
Qed.

Lemma darts_virtual_step_alphas (net_ v_net : net) mu wd trn_grad_w xi s s1 :
  (alphas v_net = alphas net_ \/
   (NoDup (alphas v_net) /\ forall a, a ∈ alphas net_ -> a ∉ alphas v_net)) ->
  DARTSArchitect.virtual_step net_ v_net mu wd trn_grad_w xi s = (Ok tt, s1) ->
  forall i a va, alphas net_ !! i = Some a -> alphas v_net !! i = Some va ->
    heap s1 va = heap s1 a.
Proof.
  intros Hcopy Hrun i a va Ha Hva.
  destruct Hcopy as [Hshared | [Hnd Hdis]].
  { rewrite Hshared in Hva. congruence. }
  unfold DARTSArchitect.virtual_step in Hrun. rewrite bind_autograd_grad in Hrun.
  destruct (trn_grad_w s) as [gs|e]; [|discriminate].
  destruct (all_defined gs) as [ts|]; [|discriminate].
  destruct (virtual_loop_frame mu wd xi (weights net_) (weights v_net) ts s)
    as (sA & HrunA & _).
  erewrite bind_ok in Hrun by exact HrunA.
  rewrite (sync_loop_values _ _ sA s1 Hnd Hdis Hrun i a va Ha Hva).
  destruct (sync_loop_frame (alphas net_) (alphas v_net) sA) as (s2 & Hrun2 & Hh & _).
  rewrite Hrun in Hrun2. inversion Hrun2; subst s2.
  symmetry. apply Hh, Hdis. eapply list_elem_of_lookup_2. exact Ha.
Qed.

(** C3: in [step] of the DARTS variant the loss of the virtual model is
    evaluated in the store left by [virtual_step], and there every alpha of
    the virtual model equals the alpha of the real model at the same
    position (the virtual alphas being either the real ones or a separate
    copy); the estimator that runs afterwards writes to real weights only,
    so the copy is the one place where the virtual alphas are written.  In
    the gated variant the virtual model reads the alpha tensors of the real
    model, so the two agree in every store. *)
Theorem virtual_alphas_synchronised :
  forall (net_ v_net : net) (mu wd : tnum) trn_grad_w trn_grad_a val_grad
         zero_grad a_optim_step (xi : tnum) (s s1 : world),
    (alphas v_net = alphas net_ \/
     (NoDup (alphas v_net) /\ forall a, a ∈ alphas net_ -> a ∉ alphas v_net)) ->
    DARTSArchitect.virtual_step net_ v_net mu wd trn_grad_w xi (zero_grad s) = (Ok tt, s1) ->
    (DARTSArchitect.step net_ v_net mu wd trn_grad_w trn_grad_a val_grad zero_grad
       a_optim_step xi s
     = DARTSArchitect.unrolled_update net_ v_net trn_grad_a val_grad a_optim_step xi s1) /\
    (forall e, val_grad s1 = Err e ->
       DARTSArchitect.step net_ v_net mu wd trn_grad_w trn_grad_a val_grad zero_grad
         a_optim_step xi s = (Err e, s1)) /\
    (forall i a va, alphas net_ !! i = Some a -> alphas v_net !! i = Some va ->
       heap s1 va = heap s1 a) /\
    (forall (dw : list tensor) (s' : world) l, l ∉ weights net_ ->
       heap (exec (DARTSArchitect.compute_hessian net_ trn_grad_a dw) s') l = heap s' l) /\
    (forall (s' : world) i a va,
       alphas net_ !! i = Some a -> gated_virtual_alphas net_ !! i = Some va ->
       heap s' va = heap s' a).
Proof.
  intros net_ v_net mu wd trn_grad_w trn_grad_a val_grad zero_grad a_optim_step
    xi s s1 Hcopy Hrun.
  assert (DARTSArchitect.step net_ v_net mu wd trn_grad_w trn_grad_a val_grad zero_grad
            a_optim_step xi s
          = DARTSArchitect.unrolled_update net_ v_net trn_grad_a val_grad a_optim_step
              xi s1) as Hstep.
  { unfold DARTSArchitect.step.
    rewrite (bind_ok (modify zero_grad) _ s tt (zero_grad s) eq_refl).
    erewrite bind_ok by exact Hrun. reflexivity. }
  split; [exact Hstep|]. split; [|split; [|split]].
  - intros e He. rewrite Hstep. unfold DARTSArchitect.unrolled_update.
    rewrite bind_autograd_grad, He. reflexivity.
  - apply (darts_virtual_step_alphas net_ v_net mu wd trn_grad_w xi (zero_grad s) s1 Hcopy Hrun).
  - intros dw s' l Hl. apply darts_compute_hessian_frame, Hl.
  - intros s' i a va Ha Hva. unfold gated_virtual_alphas in Hva. congruence.
Qed.

Lemma virtual_alphas_synchronised_witness :
  exists s1,
    DARTSArchitect.virtual_step net_b v_net_b (Fin 0%R) (Fin 0%R) grad_w_b (Fin (1 / 10)%R)
      world_b = (Ok tt, s1) /\
    heap s1 12 = heap s1 2 /\ heap s1 2 = [Fin 3%R; Fin 5%R].
Proof.
  destruct (darts_virtual_step_values net_b v_net_b (Fin 0%R) (Fin 0%R) grad_w_b
              (Fin (1 / 10)%R) world_b _ _ eq_refl eq_refl nodup_b disjoint_b_weights)
    as (s1 & Hrun & _).
  exists s1. split; [exact Hrun|].
  assert (alphas v_net_b = alphas net_b \/
          (NoDup (alphas v_net_b) /\ forall a, a ∈ alphas net_b -> a ∉ alphas v_net_b))
    as Hcopy.
  { right. split.
    - apply (bool_decide_unpack _). vm_compute. exact I.
    - intros a Ha Hv. simpl in Ha, Hv. set_unfold. lia. }
  destruct (virtual_alphas_synchronised net_b v_net_b (Fin 0%R) (Fin 0%R) grad_w_b
              bilinear_grad_a bilinear_grad_a (fun w => w) (fun w => w)
              (Fin (1 / 10)%R) world_b s1 Hcopy Hrun) as (_ & _ & Hsync & _ & _).
  split; [apply (Hsync 0 2 12 eq_refl eq_refl)|].
  pose proof (darts_virtual_step_frame net_b v_net_b (Fin 0%R) (Fin 0%R) grad_w_b
                (Fin (1 / 10)%R) world_b) as (Hh & _).
  unfold exec in Hh. rewrite Hrun in Hh. simpl in Hh.
  apply (Hh 2). set_unfold. lia.
Defined.

(** ** Renormalisation: the correction factor *)

Lemma renorm_factor_run pm s :
  BinaryGateArchitect.renorm_factor pm s =
    match k_at s pm with
    | Some k => (Ok (sops s pm.2, k), s)
    | None => (Err IndexError, s)
    end.
Proof.
  unfold BinaryGateArchitect.renorm_factor, k_at, get_state, read, index_select, bind.
  destruct (mapM (fun i => heap s pm.1 !! i) (sops s pm.2)); reflexivity.
Qed.

Lemma renorm_before_run pms s ks :
  Forall2 (fun pm k => k_at s pm = Some k) pms ks ->
  BinaryGateArchitect.renorm_before pms s = (Ok ks, s).
Proof.
  unfold BinaryGateArchitect.renorm_before.
  induction 1 as [|pm k pms ks Hk _ IH]; [reflexivity|].
  simpl. unfold bind at 1. unfold bind at 1. rewrite renorm_factor_run, Hk.
  cbn [ret snd]. unfold bind at 1. rewrite IH. reflexivity.
Qed.

Lemma mapM_lookup_valid (t : tensor) idx pp :
  mapM (fun i => t !! i) idx = Some pp -> forall i, i ∈ idx -> is_Some (t !! i).
Proof.
  intros H i Hi. apply mapM_Some_1 in H.
  apply list_elem_of_lookup_1 in Hi as [n Hn].
  destruct (Forall2_lookup_l _ _ _ _ _ H Hn) as (y & _ & Hy). eauto.
Qed.



(** ** Renormalisation: the in-place write *)

(** The inner loop [for i in s_op: p[i] += shift] on a leaf that requires
    grad: the first write is refused. *)
Lemma shift_loop_refused rg p idx x s :
  rg p = true -> idx <> [] -> (forall i, i ∈ idx -> is_Some (heap s p !! i)) ->
  for_each (fun i => iadd_at rg p i x) idx s = (Err RuntimeError, s).
Proof.
  intros Hrg Hne Hvalid. destruct idx as [|i idx]; [congruence|].
  destruct (Hvalid i ltac:(left)) as [v Hv].
  cbn [for_each]. unfold bind at 1. unfold iadd_at, bind, read.
  rewrite Hv, Hrg. reflexivity.
Qed.



(** ** Renormalisation: the shift *)




Lemma renorm_shift_run rg kprev pm s k :
  k_at s pm = Some k ->
  BinaryGateArchitect.renorm_shift rg (kprev, pm) s
  = for_each (fun i => iadd_at rg pm.1 i (log_shift k kprev)) (sops s pm.2) s.
Proof.
  intros Hk. unfold BinaryGateArchitect.renorm_shift.
  unfold bind at 1. rewrite renorm_factor_run, Hk. reflexivity.
Qed.

Lemma k_at_valid s pm k :
  k_at s pm = Some k -> forall i, i ∈ sops s pm.2 -> is_Some (heap s pm.1 !! i).
Proof.
  unfold k_at. intros Hk.
  destruct (mapM (fun i => heap s pm.1 !! i) (sops s pm.2)) as [pp|] eqn:E;
    [|discriminate].
  apply (mapM_lookup_valid _ _ _ E).
Qed.


(** On leaves that require grad, the second loop is stopped at its first
    write, whatever the shift, and has changed nothing. *)
Lemma renorm_after_refused pms rg ks sc :
  (forall pm, pm ∈ pms -> rg pm.1 = true) ->
  Forall2 (fun pm (k : tnum) => is_Some (k_at sc pm)) pms ks ->
  Exists (fun pm => sops sc pm.2 <> []) pms ->
  BinaryGateArchitect.renorm_after pms rg ks sc = (Err RuntimeError, sc).
Proof.
  unfold BinaryGateArchitect.renorm_after. intros Hrg H. revert Hrg.
  induction H as [|pm k pms ks [k' Hk] _ IH]; intros Hrg Hex; [inversion Hex|].
  change (zip (k :: ks) (pm :: pms)) with ((k, pm) :: zip ks pms).
  cbn [for_each]. unfold bind at 1.
  rewrite (renorm_shift_run rg k pm sc k' Hk).
  destruct (sops sc pm.2) as [|i idx] eqn:Hidx.
  - cbn [for_each ret]. apply IH.
    + intros pm' Hpm'. apply Hrg. right. exact Hpm'.
    + apply List.Exists_cons in Hex as [Hhd|Htl]; [congruence | exact Htl].
  - rewrite (shift_loop_refused rg pm.1 (i :: idx) _ sc); [reflexivity | | discriminate |].
    + apply Hrg. left.
    + rewrite <- Hidx. apply (k_at_valid sc pm k' Hk).
Qed.

Lemma gated_step_run (net_ v_net : net) mu wd n unrolled renorm
    trn_grad_w trn_grad_a val_grad_w alpha_grad alpha_backward
    zero_grad a_optim_step reset_ops sample_ops pms rg xi s0 :
  BinaryGateArchitect.step net_ v_net mu wd n unrolled renorm trn_grad_w trn_grad_a
    val_grad_w alpha_grad alpha_backward zero_grad a_optim_step reset_ops sample_ops
    pms rg xi s0
  = match
      (if negb unrolled then call_upd alpha_backward
       else (BinaryGateArchitect.virtual_step net_ v_net mu wd trn_grad_w xi ;;
             BinaryGateArchitect.unrolled_update net_ trn_grad_a val_grad_w alpha_grad xi))
        (sample_ops n (zero_grad s0))
    with
    | (Ok _, s) => renorm_and_update renorm a_optim_step reset_ops pms rg s
    | (Err e, s) => (Err e, s)
    end.
Proof.
  unfold BinaryGateArchitect.step.
  rewrite (bind_ok (modify zero_grad) _ s0 tt (zero_grad s0) eq_refl).
  rewrite (bind_ok (modify (sample_ops n)) _ (zero_grad s0) tt
             (sample_ops n (zero_grad s0)) eq_refl).
  unfold bind at 1.
  destruct ((if negb unrolled then call_upd alpha_backward
             else (BinaryGateArchitect.virtual_step net_ v_net mu wd trn_grad_w xi ;;
                   BinaryGateArchitect.unrolled_update net_ trn_grad_a val_grad_w
                     alpha_grad xi)) (sample_ops n (zero_grad s0))) as [[[]|e] s];
    reflexivity.
Qed.

(** The two loops around [a_optim.step()], once the first has returned. *)
Lemma renorm_and_update_run pms rg a_optim_step reset_ops s ks :
  Forall2 (fun pm k => k_at s pm = Some k) pms ks ->
  renorm_and_update true a_optim_step reset_ops pms rg s
  = match BinaryGateArchitect.renorm_after pms rg ks (a_optim_step s) with
    | (Ok _, s') => (Ok tt, reset_ops s')
    | (Err e, s') => (Err e, s')
    end.
Proof.
  intros Hks. unfold renorm_and_update.
  rewrite (bind_ok _ _ _ _ _ (renorm_before_run pms s ks Hks)).
  rewrite (bind_ok (modify a_optim_step) _ s tt (a_optim_step s) eq_refl).
  unfold bind at 1.
  destruct (BinaryGateArchitect.renorm_after pms rg ks (a_optim_step s)) as [[[]|e] s'];
    reflexivity.
Qed.








(** ** Renormalisation: a subset that lists every operation *)









(** ** The gated step with an undefined gradient *)

Lemma virtual_step_e (mu wd xi : tnum) :
  exists s1, BinaryGateArchitect.virtual_step net_e v_net_e mu wd grad_w_e xi world_e
             = (Ok tt, s1).
Proof.
  assert (NoDup (weights_cg v_net_e)) as Hnd
      by (apply (bool_decide_unpack _); vm_compute; exact I).
  assert (forall w, w ∈ weights_cg net_e -> w ∉ weights_cg v_net_e) as Hdis.
  { intros w Hw Hv. simpl in *. set_unfold. lia. }
  destruct (gated_virtual_step_values net_e v_net_e mu wd grad_w_e xi world_e
              _ _ eq_refl eq_refl Hnd Hdis) as (s1 & Hrun & _).
  exists s1. exact Hrun.
Qed.

(** C5 (the code at two inputs): in unrolled mode, [step] raises when the
    validation gradient of a virtual weight outside the sampled subgraph
    is undefined ([torch.autograd.grad] is called without
    [allow_unused=True]), and it raises when the gradient of an alpha is
    undefined ([da - xi*h] with [da] being [None]). *)
Theorem gated_step_undefined_gradient_raises :
  (BinaryGateArchitect.step net_e v_net_e (Fin 0%R) (Fin 0%R) 1 true true
     grad_w_e trn_grad_a_undefined val_grad_unused alpha_grad_defined backward_noop
     no_update no_update no_update keep_sample [(2, 0)] (fun _ => true)
     (Fin (1 / 10)%R) world_e).1
    = Err RuntimeError /\
  (BinaryGateArchitect.step net_e v_net_e (Fin 0%R) (Fin 0%R) 1 true true
     grad_w_e trn_grad_a_undefined val_grad_both alpha_grad_undefined backward_noop
     no_update no_update no_update keep_sample [(2, 0)] (fun _ => true)
     (Fin (1 / 10)%R) world_e).1
    = Err TypeError /\
  (forall (c : tnum) (s : world),
     (map_m (BinaryGateArchitect.correction c) (zip [None] [None]) s).1
     = Ok [PyNum (Fin 0%R)]).
Proof.
  destruct (virtual_step_e (Fin 0%R) (Fin 0%R) (Fin (1 / 10)%R)) as (s1 & Hvs).
  split; [|split].
  - rewrite gated_step_run. cbn [negb].
    change (keep_sample 1 (no_update world_e)) with world_e.
    erewrite bind_ok by exact Hvs.
    unfold BinaryGateArchitect.unrolled_update.
    rewrite bind_autograd_grad. reflexivity.
  - rewrite gated_step_run. cbn [negb].
    change (keep_sample 1 (no_update world_e)) with world_e.
    erewrite bind_ok by exact Hvs.
    unfold BinaryGateArchitect.unrolled_update.
    rewrite bind_autograd_grad.
    change (val_grad_both s1) with (@Ok (list (option tensor))
                                      [Some [Fin 1%R]; Some [Fin 0%R]]).
    cbn [all_defined]. rewrite bind_call. cbv beta iota.
    unfold bind at 1. rewrite gated_compute_hessian_outcome.
    change (omap (fun d => d) (Some <$> [[Fin 1%R]; [Fin 0%R]]))
      with [[Fin 1%R]; [Fin 0%R]].
    cbv iota. unfold gated_outcome, trn_grad_a_undefined.
    cbn [zip zip_with map_m BinaryGateArchitect.correction bind ret].
    unfold alpha_grad_undefined. reflexivity.
  - intros c s. reflexivity.
Qed.

(** * Further properties of the two classes *)

(** ** What the estimator leaves alone *)

Lemma gated_outcome_store ws c dw trn_grad_a s :
  (gated_outcome ws c dw trn_grad_a s).2 = stage1 ws c dw s \/
  (gated_outcome ws c dw trn_grad_a s).2 = stage2 ws c dw s \/
  (gated_outcome ws c dw trn_grad_a s).2 = stage3 ws c dw s.
Proof.
  unfold gated_outcome.
  destruct (trn_grad_a (stage1 ws c dw s)) as [pos|e]; [|left; reflexivity].
  destruct (trn_grad_a (stage2 ws c dw s)) as [neg|e]; [|right; left; reflexivity].
  right; right. apply (map_m_pure _ _ (correction_pure c)).
Qed.

Lemma darts_outcome_store ws c dw trn_grad_a s :
  (darts_outcome ws c dw trn_grad_a s).2 = stage1 ws c (Some <$> dw) s \/
  (darts_outcome ws c dw trn_grad_a s).2 = stage2 ws c (Some <$> dw) s \/
  (darts_outcome ws c dw trn_grad_a s).2 = stage3 ws c (Some <$> dw) s.
Proof.
  unfold darts_outcome.
  destruct (trn_grad_a (stage1 ws c (Some <$> dw) s)) as [pos|e]; [|left; reflexivity].
  destruct (all_defined pos); [|left; reflexivity].
  destruct (trn_grad_a (stage2 ws c (Some <$> dw) s)) as [neg|e];
    [|right; left; reflexivity].
  destruct (all_defined neg); [right; right|right; left]; reflexivity.
Qed.

Lemma darts_compute_hessian_store (net_ : net) trn_grad_a (dwd : list tensor) s :
  same_but_heap s (exec (DARTSArchitect.compute_hessian net_ trn_grad_a dwd) s).
Proof.
  unfold exec. rewrite darts_compute_hessian_outcome.
  destruct dwd as [|d0 ds]; [unfold same_but_heap; auto|].
  pose proof (stages_same_but_heap (weights net_) (epsilon (concat (d0 :: ds)))
                (Some <$> d0 :: ds) s) as (B1 & B2 & B3).
  destruct (darts_outcome_store (weights net_) (epsilon (concat (d0 :: ds)))
              (d0 :: ds) trn_grad_a s) as [-> | [-> | ->]]; assumption.
Qed.

Lemma gated_compute_hessian_store (net_ : net) trn_grad_a (dw : list (option tensor)) s :
  same_but_heap s (exec (BinaryGateArchitect.compute_hessian net_ trn_grad_a dw) s).
Proof.
  unfold exec. rewrite gated_compute_hessian_outcome.
  destruct (omap (fun d => d) dw) as [|d0 ds]; [unfold same_but_heap; auto|].
  pose proof (stages_same_but_heap (weights_cg net_) (epsilon (concat (d0 :: ds)))
                dw s) as (B1 & B2 & B3).
  destruct (gated_outcome_store (weights_cg net_) (epsilon (concat (d0 :: ds)))
              dw trn_grad_a s) as [-> | [-> | ->]]; assumption.
Qed.

(** X1: whatever its outcome, [compute_hessian] of either class changes
    the value of no tensor other than the weights it perturbs, and leaves
    the gradient fields, the optimizer state and the sampling state as
    they were. *)
Theorem compute_hessian_frame :
  forall (net_ : net) trn_grad_a (dw : list (option tensor)) (dwd : list tensor)
         (s : world),
    ((forall l, l ∉ weights_cg net_ ->
        heap (exec (BinaryGateArchitect.compute_hessian net_ trn_grad_a dw) s) l
        = heap s l) /\
     same_but_heap s (exec (BinaryGateArchitect.compute_hessian net_ trn_grad_a dw) s))
    /\
    ((forall l, l ∉ weights net_ ->
        heap (exec (DARTSArchitect.compute_hessian net_ trn_grad_a dwd) s) l
        = heap s l) /\
     same_but_heap s (exec (DARTSArchitect.compute_hessian net_ trn_grad_a dwd) s)).
Proof.
  intros net_ trn_grad_a dw dwd s. split.
  - unfold exec. rewrite gated_compute_hessian_outcome.
    destruct (omap (fun d => d) dw) as [|d0 ds];
      [split; [reflexivity | unfold same_but_heap; auto]|].
    set (ws := weights_cg net_). set (c := epsilon (concat (d0 :: ds))).
    pose proof (stages_same_but_heap ws c dw s) as (B1 & B2 & B3).
    split.
    + intros l Hl. destruct (stages_other ws c dw s l Hl) as (H1 & H2 & H3).
      destruct (gated_outcome_store ws c dw trn_grad_a s) as [-> | [-> | ->]]; assumption.
    + destruct (gated_outcome_store ws c dw trn_grad_a s) as [-> | [-> | ->]]; assumption.
  - unfold exec. rewrite darts_compute_hessian_outcome.
    destruct dwd as [|d0 ds];
      [split; [reflexivity | unfold same_but_heap; auto]|].
    set (ws := weights net_). set (c := epsilon (concat (d0 :: ds))).
    pose proof (stages_same_but_heap ws c (Some <$> d0 :: ds) s) as (B1 & B2 & B3).
    split.
    + intros l Hl.
      destruct (stages_other ws c (Some <$> d0 :: ds) s l Hl) as (H1 & H2 & H3).
      destruct (darts_outcome_store ws c (d0 :: ds) trn_grad_a s) as [-> | [-> | ->]];
        assumption.
    + destruct (darts_outcome_store ws c (d0 :: ds) trn_grad_a s) as [-> | [-> | ->]];
        assumption.
Qed.

Lemma compute_hessian_frame_witness :
  heap (exec (BinaryGateArchitect.compute_hessian net_a bilinear_grad_a dw_a) world_a) 2
    = [Fin 0%R; Fin 0%R] /\
  heap (exec (DARTSArchitect.compute_hessian net_a failing_grad_a [[Fin 3%R; Fin 4%R]])
          world_a) 2 = [Fin 0%R; Fin 0%R].
Proof.
  destruct (compute_hessian_frame net_a bilinear_grad_a dw_a [[Fin 3%R; Fin 4%R]] world_a)
    as [[Hg _] _].
  destruct (compute_hessian_frame net_a failing_grad_a dw_a [[Fin 3%R; Fin 4%R]] world_a)
    as [_ [Hd _]].
  split.
  - apply (Hg 2). simpl. set_unfold. lia.
  - apply (Hd 2). simpl. set_unfold. lia.
Defined.

(** ** The list returned by the gated estimator *)

Lemma map_m_correction_ok c l s :
  (forall pn, pn ∈ l -> ~ mismatched pn) ->
  map_m (BinaryGateArchitect.correction c) l s = (Ok (correction_value c <$> l), s).
Proof.
  induction l as [|pn l IH]; intros Hok; [reflexivity|].
  assert (BinaryGateArchitect.correction c pn s = (Ok (correction_value c pn), s)) as Hpn.
  { destruct pn as [[p|] [n|]]; try reflexivity.
    exfalso. apply (Hok (Some p, None)); [left | exists p; reflexivity]. }
  simpl. rewrite (bind_ok _ _ _ _ _ Hpn).
  rewrite (bind_ok _ _ _ _ _ (IH (fun pn' H => Hok pn' (list_elem_of_further _ _ _ H)))).
  reflexivity.
Qed.

Lemma map_m_correction_err c l s :
  (exists pn, pn ∈ l /\ mismatched pn) ->
  map_m (BinaryGateArchitect.correction c) l s = (Err TypeError, s).
Proof.
  induction l as [|pn l IH]; intros (pn' & Hin & Hmis).
  { apply elem_of_nil in Hin. contradiction. }
  simpl. destruct pn as [[p|] [n|]].
  - apply elem_of_cons in Hin as [-> | Hin]; [destruct Hmis as [q Hq]; discriminate|].
    unfold bind at 1. cbn [BinaryGateArchitect.correction ret].
    unfold bind at 1. rewrite IH by eauto. reflexivity.
  - reflexivity.
  - apply elem_of_cons in Hin as [-> | Hin]; [destruct Hmis as [q Hq]; discriminate|].
    unfold bind at 1. cbn [BinaryGateArchitect.correction ret].
    unfold bind at 1. rewrite IH by eauto. reflexivity.
  - apply elem_of_cons in Hin as [-> | Hin]; [destruct Hmis as [q Hq]; discriminate|].
    unfold bind at 1. cbn [BinaryGateArchitect.correction ret].
    unfold bind at 1. rewrite IH by eauto. reflexivity.
Qed.

(** X3: when both evaluations of the training loss succeed, the gated
    [compute_hessian] ends in the store of the recovery loop.  It returns one
    entry per pair of alpha gradients, [(p-n) / 2.*eps] for two tensors and
    [0] where the gradient at [w + eps*dw] is [None], unless some alpha has
    a gradient at [w + eps*dw] and none at [w - eps*dw]: then it raises
    [TypeError], after the weights were recovered. *)
Theorem gated_compute_hessian_result :
  forall (net_ : net) trn_grad_a (dw : list (option tensor)) (s : world) pos neg,
    some_defined dw ->
    trn_grad_a (stage1 (weights_cg net_) (epsilon (concat (omap (fun d => d) dw))) dw s)
      = Ok pos ->
    trn_grad_a (stage2 (weights_cg net_) (epsilon (concat (omap (fun d => d) dw))) dw s)
      = Ok neg ->
    let c := epsilon (concat (omap (fun d => d) dw)) in
    let s3 := stage3 (weights_cg net_) c dw s in
    ((forall pn, pn ∈ zip pos neg -> ~ mismatched pn) ->
       BinaryGateArchitect.compute_hessian net_ trn_grad_a dw s
       = (Ok (correction_value c <$> zip pos neg), s3)) /\
    ((exists pn, pn ∈ zip pos neg /\ mismatched pn) ->
       BinaryGateArchitect.compute_hessian net_ trn_grad_a dw s = (Err TypeError, s3)).
Proof.
  intros net_ trn_grad_a dw s pos neg Hdef Hpos Hneg. cbv zeta.
  rewrite gated_compute_hessian_outcome.
  pose proof (omap_defined_nonempty dw Hdef) as Hne.
  destruct (omap (fun d => d) dw) as [|d0 ds]; [congruence|].
  unfold gated_outcome. rewrite Hpos, Hneg. split.
  - apply map_m_correction_ok.
  - apply map_m_correction_err.
Qed.

Lemma gated_compute_hessian_result_witness :
  BinaryGateArchitect.compute_hessian net_a trn_grad_a_undefined dw_a world_a
  = (Ok [PyNum (Fin 0%R)],
     stage3 [0; 1] (epsilon (concat (omap (fun d => d) dw_a))) dw_a world_a).
Proof.
  destruct (gated_compute_hessian_result net_a trn_grad_a_undefined dw_a world_a
              [None] [None] dw_a_defined eq_refl eq_refl) as [Hok _].
  apply Hok. intros pn Hpn [p Hp]. subst pn.
  apply list_elem_of_singleton in Hpn. discriminate.
Defined.

(** ** The gradients written on the alphas *)

(** The loop [for alpha, da, h in zip(...): alpha.grad = F da h] for an
    assignment that cannot raise. *)
Lemma assign_loop {D H : Type} (F : D -> H -> tensor) (f : loc * D * H -> M unit) :
  (forall a d h s, f (a, d, h) s = set_grad a (F d h) s) ->
  forall (avs : list loc) (das : list D) (hs : list H) (s : world),
    NoDup avs ->
    exists s', for_each f (zip (zip avs das) hs) s = (Ok tt, s') /\
      heap s' = heap s /\ ostate s' = ostate s /\ sops s' = sops s /\
      (forall l, l ∉ avs -> grad s' l = grad s l) /\
      (forall i a, avs !! i = Some a ->
         grad s' a = match das !! i, hs !! i with
                     | Some d, Some h => Some (F d h)
                     | _, _ => grad s a
                     end).
Proof.
  intros Hf avs. induction avs as [|a0 avs IH]; intros das hs s Hnd.
  { exists s. repeat split; auto. intros i a Hi. rewrite lookup_nil in Hi. discriminate. }
  pose proof (NoDup_cons_1_1 _ _ Hnd) as Ha0. apply NoDup_cons_1_2 in Hnd.
  destruct das as [|d0 das].
  { exists s. repeat split; auto. }
  destruct hs as [|h0 hs].
  { exists s. repeat split; auto; try reflexivity.
    intros i a Hi. rewrite lookup_nil.
    destruct ((d0 :: das) !! i); reflexivity. }
  change (zip (zip (a0 :: avs) (d0 :: das)) (h0 :: hs))
    with ((a0, d0, h0) :: zip (zip avs das) hs).
  set (s1 := set_grads (<[a0 := Some (F d0 h0)]> (grad s)) s).
  destruct (IH das hs s1 Hnd) as (s' & Hrun & Hh & Ho & Hs & Hout & Hat).
  exists s'. split.
  { simpl. erewrite bind_ok; [exact Hrun|]. rewrite Hf. reflexivity. }
  split; [exact Hh|]. split; [exact Ho|]. split; [exact Hs|]. split.
  - intros l Hl. apply not_elem_of_cons in Hl as [Hne Hl].
    rewrite (Hout l Hl). subst s1. cbn [grad set_grads].
    apply fn_lookup_insert_ne. congruence.
  - intros i a Hi. destruct i as [|i]; simpl in Hi.
    + inversion Hi; subst a. simpl. rewrite (Hout a0 Ha0).
      subst s1. cbn [grad set_grads]. apply fn_lookup_insert.
    + simpl. rewrite (Hat i a Hi).
      assert (a0 <> a) as Hne.
      { intros ->. apply Ha0. eapply list_elem_of_lookup_2. exact Hi. }
      destruct (das !! i); [|subst s1; cbn [grad set_grads];
                              apply fn_lookup_insert_ne, Hne].
      destruct (hs !! i); [reflexivity|].
      subst s1. cbn [grad set_grads]. apply fn_lookup_insert_ne, Hne.
Qed.

(** X4: in [step] of the DARTS class, once the joint gradient of the
    virtual loss and the correction are there, each alpha of the real
    model receives the gradient [da - xi*h], [da] being among the first
    [len(v_alphas)] entries of the joint gradient and [h] the correction
    computed from the remaining entries; no tensor changes in this loop,
    no other gradient field is written, and [a_optim.step()] runs in the
    store so obtained. *)
Theorem darts_step_gradients :
  forall (net_ v_net : net) trn_grad_a val_grad a_optim_step (xi : tnum)
         (s1 s2 : world) gs ts hs,
    NoDup (alphas net_) ->
    val_grad s1 = Ok gs -> all_defined gs = Some ts ->
    DARTSArchitect.compute_hessian net_ trn_grad_a (drop (length (alphas v_net)) ts) s1
      = (Ok hs, s2) ->
    exists s3,
      DARTSArchitect.unrolled_update net_ v_net trn_grad_a val_grad a_optim_step xi s1
        = (Ok tt, a_optim_step s3) /\
      heap s3 = heap s2 /\ ostate s3 = ostate s1 /\ sops s3 = sops s1 /\
      (forall l, l ∉ alphas net_ -> grad s3 l = grad s1 l) /\
      (forall i a, alphas net_ !! i = Some a ->
         grad s3 a = match take (length (alphas v_net)) ts !! i, hs !! i with
                     | Some da, Some h => Some (t_sub da (s_mul xi h))
                     | _, _ => grad s1 a
                     end).
Proof.
  intros net_ v_net trn_grad_a val_grad a_optim_step xi s1 s2 gs ts hs
    Hnd Hgs Hts Hrun.
  pose proof (darts_compute_hessian_store net_ trn_grad_a
                (drop (length (alphas v_net)) ts) s1) as Hsame.
  unfold exec in Hsame. rewrite Hrun in Hsame. cbn [snd] in Hsame.
  destruct Hsame as (Hg2 & Ho2 & Hs2).
  destruct (assign_loop (fun da h => t_sub da (s_mul xi h))
              (fun '(alpha, da, h) => set_grad alpha (t_sub da (s_mul xi h)))
              (fun a d h s => eq_refl)
              (alphas net_) (take (length (alphas v_net)) ts) hs s2 Hnd)
    as (s3 & Hloop & Hh & Ho & Hs & Hout & Hat).
  exists s3. split.
  { unfold DARTSArchitect.unrolled_update.
    rewrite bind_autograd_grad, Hgs, Hts.
    rewrite (bind_ok _ _ _ _ _ Hrun).
    rewrite (bind_ok _ _ _ _ _ Hloop). reflexivity. }
  split; [exact Hh|]. split; [congruence|]. split; [congruence|]. split.
  - intros l Hl. rewrite (Hout l Hl). congruence.
  - intros i a Hi. rewrite (Hat i a Hi), Hg2. reflexivity.
Qed.

Lemma darts_step_gradients_witness :
  exists s3 h,
    DARTSArchitect.unrolled_update net_a net_a bilinear_grad_a val_grad_joint no_update
      (Fin 1%R) world_a = (Ok tt, no_update s3) /\
    grad s3 2 = Some (t_sub [Fin 1%R; Fin 0%R] (s_mul (Fin 1%R) h)) /\
    grad s3 0 = None.
Proof.
  edestruct (darts_step_gradients net_a net_a bilinear_grad_a val_grad_joint no_update
               (Fin 1%R) world_a) as (s3 & Hrun & _ & _ & _ & Hout & Hat).
  - apply NoDup_singleton.
  - reflexivity.
  - reflexivity.
  - rewrite darts_compute_hessian_outcome. unfold darts_outcome, bilinear_grad_a.
    cbn [drop length alphas net_a all_defined mapM mbind option_bind mret option_ret
         fmap option_fmap option_map]. reflexivity.
  - exists s3. eexists. split; [exact Hrun|]. split.
    + rewrite (Hat 0 2 eq_refl). reflexivity.
    + rewrite (Hout 0); [reflexivity|]. set_unfold. lia.
Defined.

(** The gated loop [alpha.grad = da - xi*h] over a list of alpha gradients
    whose first undefined entry, if any, comes after [das]: it performs
    the assignments of the defined prefix, and raises at the undefined
    entry when the loop reaches it. *)
Lemma gated_assign_run (xi : tnum) (das : list tensor) (tail : list (option tensor)) :
  forall (avs : list loc) (hs : list pyval) (s : world),
    let s3 := exec (for_each (fun '(a, d, h) => set_grad a (t_sub_py d (s_mul_py xi h)))
                      (zip (zip avs das) hs)) s in
    (tail = [] ->
       for_each (BinaryGateArchitect.assign_grad xi)
         (zip (zip avs ((Some <$> das) ++ tail)) hs) s = (Ok tt, s3)) /\
    (forall rest, tail = None :: rest ->
       length das < length avs -> length das < length hs ->
       for_each (BinaryGateArchitect.assign_grad xi)
         (zip (zip avs ((Some <$> das) ++ tail)) hs) s = (Err TypeError, s3)).
Proof.
  induction das as [|d0 das IH]; intros avs hs s; cbv zeta.
  - split.
    + intros ->. destruct avs; reflexivity.
    + intros rest -> Ha Hh.
      destruct avs as [|a0 avs]; [simpl in Ha; lia|].
      destruct hs as [|h0 hs]; [simpl in Hh; lia|]. reflexivity.
  - destruct avs as [|a0 avs].
    { split; [intros _; reflexivity | intros rest _ Ha; simpl in Ha; lia]. }
    destruct hs as [|h0 hs].
    { split; [intros _; reflexivity | intros rest _ _ Hh; simpl in Hh; lia]. }
    destruct (IH avs hs
                (set_grads (<[a0 := Some (t_sub_py d0 (s_mul_py xi h0))]> (grad s)) s))
      as [IH1 IH2].
    split.
    + intros Ht. exact (IH1 Ht).
    + intros rest Ht Ha Hh. simpl in Ha, Hh. apply (IH2 rest Ht); lia.
Qed.

Lemma unused_alpha_gradient (x : R) (d : tensor) :
  finite_t d -> t_sub_py d (s_mul_py (Fin x) (PyNum (Fin 0%R))) = d.
Proof.
  intros Hd. simpl. unfold t_sub_s.
  induction Hd as [|y d Hy Hd IH]; [reflexivity|].
  rewrite fmap_cons, IH. f_equal.
  destruct y; try discriminate. simpl. f_equal. lra.
Qed.

(** X5: in the unrolled branch of [step] of the gated class, the loop
    [alpha.grad = da - xi*h] writes the gradient of every alpha whose
    [da] comes before the first undefined entry of [alpha_grad(loss)], and
    of no other tensor; it changes no tensor value.  When no entry is
    undefined the branch returns; when the loop reaches an undefined
    entry it raises [TypeError], and the gradients written before stay
    written.  For an alpha that the training loss does not use
    ([h = 0]), a finite [xi] and a finite [da], the gradient written is
    [da] itself. *)
Theorem gated_step_gradients :
  forall (net_ : net) trn_grad_a val_grad_w alpha_grad (xi : tnum)
         (s1 s2 : world) gs dw hs das tail,
    NoDup (alphas net_) ->
    val_grad_w s1 = Ok gs -> all_defined gs = Some dw ->
    BinaryGateArchitect.compute_hessian net_ trn_grad_a (Some <$> dw) s1 = (Ok hs, s2) ->
    alpha_grad s1 = (Some <$> das) ++ tail ->
    exists s3,
      (tail = [] ->
         BinaryGateArchitect.unrolled_update net_ trn_grad_a val_grad_w alpha_grad xi s1
         = (Ok tt, s3)) /\
      (forall rest, tail = None :: rest ->
         length das < length (alphas net_) -> length das < length hs ->
         BinaryGateArchitect.unrolled_update net_ trn_grad_a val_grad_w alpha_grad xi s1
         = (Err TypeError, s3)) /\
      heap s3 = heap s2 /\ ostate s3 = ostate s1 /\ sops s3 = sops s1 /\
      (forall l, l ∉ alphas net_ -> grad s3 l = grad s1 l) /\
      (forall i a, alphas net_ !! i = Some a ->
         grad s3 a = match das !! i, hs !! i with
                     | Some da, Some h => Some (t_sub_py da (s_mul_py xi h))
                     | _, _ => grad s1 a
                     end) /\
      (forall i a da x, alphas net_ !! i = Some a -> das !! i = Some da ->
         hs !! i = Some (PyNum (Fin 0%R)) -> xi = Fin x -> finite_t da ->
         grad s3 a = Some da).
Proof.
  intros net_ trn_grad_a val_grad_w alpha_grad xi s1 s2 gs dw hs das tail
    Hnd Hgs Hdw Hrun Hda.
  pose proof (gated_compute_hessian_store net_ trn_grad_a (Some <$> dw) s1) as Hsame.
  unfold exec in Hsame. rewrite Hrun in Hsame. cbn [snd] in Hsame.
  destruct Hsame as (Hg2 & Ho2 & Hs2).
  destruct (assign_loop (fun da h => t_sub_py da (s_mul_py xi h))
              (fun '(a, d, h) => set_grad a (t_sub_py d (s_mul_py xi h)))
              (fun a d h s => eq_refl)
              (alphas net_) das hs s2 Hnd)
    as (s3 & Hloop & Hh & Ho & Hs & Hout & Hat).
  destruct (gated_assign_run xi das tail (alphas net_) hs s2) as [Hok Herr].
  unfold exec in Hok, Herr. rewrite Hloop in Hok, Herr. cbn [snd] in Hok, Herr.
  assert (forall r,
            for_each (BinaryGateArchitect.assign_grad xi)
              (zip (zip (alphas net_) ((Some <$> das) ++ tail)) hs) s2 = (r, s3) ->
            BinaryGateArchitect.unrolled_update net_ trn_grad_a val_grad_w alpha_grad xi s1
            = (r, s3)) as Hstep.
  { intros r Hr. unfold BinaryGateArchitect.unrolled_update.
    rewrite bind_autograd_grad, Hgs, Hdw, bind_call, Hda.
    rewrite (bind_ok _ _ _ _ _ Hrun). exact Hr. }
  exists s3. split; [intros Ht; apply Hstep, Hok, Ht|].
  split; [intros rest Ht Ha Hl; apply Hstep; exact (Herr rest Ht Ha Hl)|].
  split; [exact Hh|]. split; [congruence|]. split; [congruence|]. split.
  { intros l Hl. rewrite (Hout l Hl). congruence. }
  split.
  - intros i a Hi. rewrite (Hat i a Hi), Hg2. reflexivity.
  - intros i a da x Hi Hdai Hhi -> Hfin.
    rewrite (Hat i a Hi), Hdai, Hhi. f_equal. apply unused_alpha_gradient, Hfin.
Qed.

Lemma gated_step_gradients_witness :
  (exists s3,
     BinaryGateArchitect.unrolled_update net_e trn_grad_a_undefined val_grad_both
       alpha_grad_defined (Fin 1%R) world_e = (Ok tt, s3) /\
     grad s3 2 = Some [Fin 1%R; Fin 0%R]) /\
  (exists s3,
     BinaryGateArchitect.unrolled_update net_e trn_grad_a_undefined val_grad_both
       alpha_grad_undefined (Fin 1%R) world_e = (Err TypeError, s3) /\
     grad s3 2 = None).
Proof.
  assert (BinaryGateArchitect.compute_hessian net_e trn_grad_a_undefined
            (Some <$> [[Fin 1%R]; [Fin 0%R]]) world_e
          = (Ok [PyNum (Fin 0%R)],
             stage3 [0] (epsilon [Fin 1%R; Fin 0%R])
               [Some [Fin 1%R]; Some [Fin 0%R]] world_e)) as Hrun.
  { rewrite gated_compute_hessian_outcome. reflexivity. }
  split.
  - destruct (gated_step_gradients net_e trn_grad_a_undefined val_grad_both
                alpha_grad_defined (Fin 1%R) world_e _ _ _ _
                [[Fin 1%R; Fin 0%R]] [] (NoDup_singleton 2) eq_refl eq_refl Hrun eq_refl)
      as (s3 & Hok & _ & _ & _ & _ & _ & _ & Hzero).
    exists s3. split; [apply Hok; reflexivity|].
    apply (Hzero 0 2 _ 1%R); try reflexivity. repeat constructor.
  - destruct (gated_step_gradients net_e trn_grad_a_undefined val_grad_both
                alpha_grad_undefined (Fin 1%R) world_e _ _ _ _
                [] [None] (NoDup_singleton 2) eq_refl eq_refl Hrun eq_refl)
      as (s3 & _ & Herr & _ & _ & _ & _ & Hat & _).
    exists s3. split; [apply (Herr []); [reflexivity | simpl; lia | simpl; lia]|].
    rewrite (Hat 0 2 eq_refl). reflexivity.
Defined.

(** ** Renormalisation: sampled indices out of range *)

Lemma k_at_in_range s pm : indices_in_range s pm -> is_Some (k_at s pm).
Proof.
  intros Hin. unfold k_at.
  assert (is_Some (mapM (fun i => heap s pm.1 !! i) (sops s pm.2))) as [pp ->].
  { apply mapM_is_Some. apply list.Forall_forall. intros i Hi.
    apply lookup_lt_is_Some, Hin, Hi. }
  eauto.
Qed.

Lemma k_at_out_of_range s pm : index_out_of_range s pm -> k_at s pm = None.
Proof.
  intros (i & Hi & Hlen). unfold k_at.
  destruct (mapM (fun i => heap s pm.1 !! i) (sops s pm.2)) as [pp|] eqn:E;
    [|reflexivity].
  exfalso. destruct (mapM_lookup_valid _ _ _ E i Hi) as [v Hv].
  apply lookup_lt_Some in Hv. lia.
Qed.

Lemma renorm_before_pure pms s : (BinaryGateArchitect.renorm_before pms s).2 = s.
Proof.
  unfold BinaryGateArchitect.renorm_before. apply map_m_pure.
  intros pm s0. unfold bind. rewrite renorm_factor_run.
  destruct (k_at s0 pm); reflexivity.
Qed.

Lemma renorm_before_error pms s :
  Exists (index_out_of_range s) pms ->
  BinaryGateArchitect.renorm_before pms s = (Err IndexError, s).
Proof.
  unfold BinaryGateArchitect.renorm_before.
  induction pms as [|pm pms IH]; intros Hex; [inversion Hex|].
  simpl. unfold bind at 1. unfold bind at 1. rewrite renorm_factor_run.
  destruct (k_at s pm) as [k|] eqn:Hk; [|reflexivity].
  cbn [ret snd]. unfold bind at 1.
  rewrite IH; [reflexivity|].
  apply List.Exists_cons in Hex as [Hout|Hex]; [|exact Hex].
  rewrite (k_at_out_of_range s pm Hout) in Hk. discriminate.
Qed.

(** X7: the first renormalisation loop never changes the store.  When
    every sampled index of every decision point is an index of its logits,
    it returns one factor per decision point; when some sampled index is
    out of range, [index_select] raises [IndexError] and [step] ends there,
    in the store it had before the loop: neither [a_optim.step()] nor
    [reset_ops] runs. *)
Theorem renorm_before_index_error :
  forall (pms : list (loc * nat)) (requires_grad : loc -> bool)
         (a_optim_step reset_ops : world -> world) (s : world),
    (BinaryGateArchitect.renorm_before pms s).2 = s /\
    (Forall (indices_in_range s) pms ->
       exists ks, BinaryGateArchitect.renorm_before pms s = (Ok ks, s) /\
                  Forall2 (fun pm k => k_at s pm = Some k) pms ks) /\
    (Exists (index_out_of_range s) pms ->
       BinaryGateArchitect.renorm_before pms s = (Err IndexError, s) /\
       renorm_and_update true a_optim_step reset_ops pms requires_grad s
         = (Err IndexError, s)).
Proof.
  intros pms requires_grad a_optim_step reset_ops s.
  split; [apply renorm_before_pure|]. split.
  - intros Hall.
    assert (exists ks, Forall2 (fun pm k => k_at s pm = Some k) pms ks) as [ks Hks].
    { induction Hall as [|pm pms Hpm _ [ks IH]]; [exists []; constructor|].
      destruct (k_at_in_range s pm Hpm) as [k Hk].
      exists (k :: ks). constructor; assumption. }
    exists ks. split; [apply renorm_before_run, Hks | exact Hks].
  - intros Hex. pose proof (renorm_before_error pms s Hex) as Herr.
    split; [exact Herr|].
    unfold renorm_and_update, bind. rewrite Herr. reflexivity.
Qed.

Lemma renorm_before_index_error_witness :
  (exists ks, BinaryGateArchitect.renorm_before [(0, 0)] world_d = (Ok ks, world_d)) /\
  renorm_and_update true raise_first_logit no_update [(0, 0)] (fun _ => true) world_f
    = (Err IndexError, world_f).
Proof.
  split.
  - destruct (renorm_before_index_error [(0, 0)] (fun _ => true) no_update no_update
                world_d)
      as (_ & Hok & _).
    destruct Hok as (ks & Hrun & _); [|exists ks; exact Hrun].
    constructor; [|constructor]. intros i Hi. simpl in *. set_unfold. lia.
  - destruct (renorm_before_index_error [(0, 0)] (fun _ => true) raise_first_logit
                no_update world_f)
      as (_ & _ & Herr).
    apply Herr. left. exists 2. split; [simpl; set_unfold; lia | simpl; lia].
Defined.

(** ** One step of the DARTS architect, from end to end *)

(** X8: [step] of the DARTS class when every collaborator answers, the
    virtual model being a separate copy of the real one: [step] returns
    after [a_optim.step()], run in a store in which no tensor outside the
    virtual model and the real weights differs from its value after
    [a_optim.zero_grad()], each real weight holds what the three passes of
    [compute_hessian] leave in it, [((w + eps*dw) - 2.*eps*dw) + eps*dw]
    for the direction [dw] paired with it, each virtual weight holds the
    momentum-SGD value of its real weight, each virtual alpha the value of
    its real alpha, and each real alpha carries the gradient [da - xi*h];
    no other gradient field is written, the sampling state is as before
    and no existing entry of the optimizer state has changed. *)
Theorem darts_step_end_to_end :
  forall (net_ v_net : net) (mu wd : tnum) trn_grad_w trn_grad_a val_grad
         (zero_grad a_optim_step : world -> world) (xi : tnum) (s : world)
         gs ts vgs vts hs s2,
    let s0 := zero_grad s in
    let s1 := exec (DARTSArchitect.virtual_step net_ v_net mu wd trn_grad_w xi) s0 in
    let dw := drop (length (alphas v_net)) vts in
    NoDup (weights net_) -> NoDup (alphas net_) ->
    NoDup (weights v_net ++ alphas v_net) ->
    (forall l, l ∈ weights net_ ++ alphas net_ -> l ∉ weights v_net ++ alphas v_net) ->
    trn_grad_w s0 = Ok gs -> all_defined gs = Some ts ->
    val_grad s1 = Ok vgs -> all_defined vgs = Some vts ->
    DARTSArchitect.compute_hessian net_ trn_grad_a dw s1 = (Ok hs, s2) ->
    exists s3,
      DARTSArchitect.step net_ v_net mu wd trn_grad_w trn_grad_a val_grad zero_grad
        a_optim_step xi s = (Ok tt, a_optim_step s3) /\
      (forall l, l ∉ weights v_net ++ alphas v_net -> l ∉ weights net_ ->
         heap s3 l = heap s0 l) /\
      (forall i w, weights net_ !! i = Some w ->
         heap s3 w = after_passes (epsilon (concat dw)) (Some <$> dw) i (heap s0 w)) /\
      (forall i w vw g, weights net_ !! i = Some w -> weights v_net !! i = Some vw ->
         ts !! i = Some g ->
         heap s3 vw = virtual_weight wd xi (momentum_term mu s0 w) (heap s0 w) g) /\
      (forall i a va, alphas net_ !! i = Some a -> alphas v_net !! i = Some va ->
         heap s3 va = heap s0 a) /\
      (forall l, l ∉ alphas net_ -> grad s3 l = grad s0 l) /\
      (forall i a, alphas net_ !! i = Some a ->
         grad s3 a = match take (length (alphas v_net)) vts !! i, hs !! i with
                     | Some da, Some h => Some (t_sub da (s_mul xi h))
                     | _, _ => grad s0 a
                     end) /\
      sops s3 = sops s0 /\ ostate_kept s0 s3.
Proof.
  intros net_ v_net mu wd trn_grad_w trn_grad_a val_grad zero_grad a_optim_step xi s
    gs ts vgs vts hs s2 s0 s1 dw Hndw Hnda Hndv Hdis Hgs Hts Hvgs Hvts Hrun.
  assert (forall w, w ∈ weights net_ -> w ∉ weights v_net) as Hdisw.
  { intros w Hw Hin. apply (Hdis w); apply elem_of_app; left; assumption. }
  assert (forall vl, vl ∈ weights v_net ++ alphas v_net -> vl ∉ weights net_) as Hvirt.
  { intros vl Hvl Hin. apply (Hdis vl); [apply elem_of_app; left|]; assumption. }
  destruct (darts_virtual_step_values net_ v_net mu wd trn_grad_w xi s0 gs ts
              Hgs Hts Hndv Hdisw) as (s1' & Hvs & Hvals).
  assert (s1 = s1') as Hs1 by (subst s1; unfold exec; rewrite Hvs; reflexivity).
  pose proof (darts_virtual_step_frame net_ v_net mu wd trn_grad_w xi s0) as Hfr.
  fold s1 in Hfr. destruct Hfr as (Hh1 & Hg1 & Hsop1 & Ho1).
  assert (forall l, l ∈ weights net_ ++ alphas net_ -> heap s1 l = heap s0 l) as Hreal.
  { intros l Hl. apply Hh1, Hdis, Hl. }
  (* the store after the three passes *)
  pose proof (darts_compute_hessian_store net_ trn_grad_a dw s1) as Hsame.
  unfold exec in Hsame. rewrite Hrun in Hsame. cbn [snd] in Hsame.
  destruct Hsame as (Hg2 & Ho2 & Hsop2).
  assert (s2 = stage3 (weights net_) (epsilon (concat dw)) (Some <$> dw) s1) as Hs2.
  { rewrite darts_compute_hessian_outcome in Hrun.
    destruct dw as [|d0 ds] eqn:Hdw; [discriminate|].
    apply darts_outcome_ok in Hrun. exact Hrun. }
  assert (forall l, l ∉ weights net_ -> heap s2 l = heap s1 l) as Hother.
  { intros l Hl. rewrite Hs2. apply stages_other, Hl. }
  (* the gradients *)
  destruct (assign_loop (fun da h => t_sub da (s_mul xi h))
              (fun '(alpha, da, h) => set_grad alpha (t_sub da (s_mul xi h)))
              (fun a d h s => eq_refl)
              (alphas net_) (take (length (alphas v_net)) vts) hs s2 Hnda)
    as (s3 & Hloop & Hh3 & Ho3 & Hsop3 & Hout & Hat).
  exists s3. split.
  { unfold DARTSArchitect.step.
    rewrite (bind_ok (modify zero_grad) _ s tt s0 eq_refl).
    rewrite Hs1 in Hvgs, Hrun. rewrite (bind_ok _ _ _ _ _ Hvs).
    unfold DARTSArchitect.unrolled_update.
    rewrite bind_autograd_grad, Hvgs, Hvts.
    rewrite (bind_ok _ _ _ _ _ Hrun).
    rewrite (bind_ok _ _ _ _ _ Hloop). reflexivity. }
  split; [intros l Hl Hlw; rewrite Hh3, (Hother l Hlw); apply Hh1, Hl|]. split.
  { intros i w Hw. rewrite Hh3, Hs2.
    rewrite (stage3_after_passes _ _ _ _ i w Hndw Hw), Hreal; [reflexivity|].
    apply elem_of_app. left. eapply list_elem_of_lookup_2. exact Hw. }
  split.
  { intros i w vw g Hw Hvw Hg. rewrite Hh3, Hother, Hs1.
    - apply (Hvals i w vw g Hw Hvw Hg).
    - apply Hvirt, elem_of_app. left. eapply list_elem_of_lookup_2. exact Hvw. }
  split.
  { intros i a va Ha Hva. rewrite Hh3, Hother.
    - transitivity (heap s1 a).
      + rewrite Hs1.
        refine (darts_virtual_step_alphas net_ v_net mu wd trn_grad_w xi s0 s1'
                  _ Hvs i a va Ha Hva).
        right. apply list.NoDup_app in Hndv as (_ & _ & Hndva). split; [exact Hndva|].
        intros a' Ha' Hin. apply (Hdis a'); apply elem_of_app; right; assumption.
      + apply Hreal. apply elem_of_app. right.
        eapply list_elem_of_lookup_2. exact Ha.
    - apply Hvirt, elem_of_app. right. eapply list_elem_of_lookup_2. exact Hva. }
  split; [intros l Hl; rewrite (Hout l Hl); congruence|]. split.
  { intros i a Ha. rewrite (Hat i a Ha), Hg2, Hg1. reflexivity. }
  split; [congruence|].
  destruct Ho1 as [Hk1 Hk2]. split.
  - intros k d Hk. rewrite Ho3, Ho2. apply Hk1, Hk.
  - intros k. rewrite Ho3, Ho2. apply Hk2.
Qed.

Lemma darts_step_end_to_end_witness :
  exists s3,
    DARTSArchitect.step net_b v_net_b (Fin 0%R) (Fin 0%R) grad_w_b bilinear_grad_b
      val_grad_b no_update no_update (Fin (1 / 10)%R) world_b = (Ok tt, no_update s3) /\
    heap s3 0 = pass3 tnum_arith (Fin (2 / 1000)%R) [Fin 1%R] [Fin 3%R] /\
    heap s3 1 = pass3 tnum_arith (Fin (2 / 1000)%R) [Fin 2%R] [Fin 4%R] /\
    heap s3 2 = [Fin 3%R; Fin 5%R] /\
    heap s3 12 = [Fin 3%R; Fin 5%R] /\ is_Some (grad s3 2).
Proof.
  edestruct (darts_step_end_to_end net_b v_net_b (Fin 0%R) (Fin 0%R) grad_w_b
               bilinear_grad_b val_grad_b no_update no_update (Fin (1 / 10)%R) world_b)
    as (s3 & Hrun & Hout & Hreal & _ & Halpha & _ & Hgrad & _).
  - exact nodup_0_1.
  - apply NoDup_singleton.
  - exact nodup_b.
  - exact disjoint_b.
  - reflexivity.
  - reflexivity.
  - reflexivity.
  - reflexivity.
  - rewrite darts_compute_hessian_outcome. unfold darts_outcome, bilinear_grad_b.
    cbn [drop length alphas v_net_b all_defined]. reflexivity.
  - exists s3. split; [exact Hrun|].
    split.
    { rewrite (Hreal 0 0 eq_refl).
      cbn [drop length alphas v_net_b concat app]. rewrite epsilon_3_4. reflexivity. }
    split.
    { rewrite (Hreal 1 1 eq_refl).
      cbn [drop length alphas v_net_b concat app]. rewrite epsilon_3_4. reflexivity. }
    split; [apply (Hout 2); simpl; set_unfold; lia|].
    split; [apply (Halpha 0 2 12); reflexivity|].
    rewrite (Hgrad 0 2 eq_refl). cbn. eauto.
Defined.

(** ** One step of the gated architect *)

Lemma factors_in_range s pms :
  Forall (indices_in_range s) pms ->
  exists ks, Forall2 (fun pm k => k_at s pm = Some k) pms ks.
Proof.
  induction 1 as [|pm pms Hpm _ [ks IH]]; [exists []; constructor|].
  destruct (k_at_in_range s pm Hpm) as [k Hk].
  exists (k :: ks). constructor; assumption.
Qed.

(** X9: the outcomes of [step] of the gated class.  When the gradient
    part raises, [step] ends there with that error: [a_optim.step()] and
    [reset_ops] do not run.  When it returns and [renorm] is off, [step]
    returns after [a_optim.step()] and [reset_ops].  When it returns and
    [renorm] is on: a sampled index that is out of range ends [step] with
    [IndexError] before [a_optim.step()]; with every sampled index in
    range before and after the optimizer step, alphas that are leaves
    requiring grad and a decision point with a non-empty sample, [step]
    ends with [RuntimeError] at the first write of the second loop, in
    the store [a_optim.step()] left: no logit is shifted and [reset_ops]
    does not run. *)
Theorem gated_step_outcomes :
  forall (net_ v_net : net) (mu wd : tnum) (n : nat) (unrolled renorm : bool)
         trn_grad_w trn_grad_a val_grad_w alpha_grad alpha_backward
         (zero_grad a_optim_step reset_ops : world -> world)
         (sample_ops : nat -> world -> world) (pms : list (loc * nat))
         (requires_grad : loc -> bool) (xi : tnum) (s sb : world),
    let branch := gradient_branch net_ v_net mu wd unrolled trn_grad_w trn_grad_a
                    val_grad_w alpha_grad alpha_backward xi in
    let run := BinaryGateArchitect.step net_ v_net mu wd n unrolled renorm trn_grad_w
                 trn_grad_a val_grad_w alpha_grad alpha_backward zero_grad a_optim_step
                 reset_ops sample_ops pms requires_grad xi s in
    (forall e, branch (sample_ops n (zero_grad s)) = (Err e, sb) -> run = (Err e, sb)) /\
    (branch (sample_ops n (zero_grad s)) = (Ok tt, sb) ->
       (renorm = false -> run = (Ok tt, reset_ops (a_optim_step sb))) /\
       (renorm = true ->
        (Exists (index_out_of_range sb) pms -> run = (Err IndexError, sb)) /\
        (Forall (indices_in_range sb) pms ->
         Forall (indices_in_range (a_optim_step sb)) pms ->
         (forall pm, pm ∈ pms -> requires_grad pm.1 = true) ->
         Exists (fun pm => sops (a_optim_step sb) pm.2 <> []) pms ->
         run = (Err RuntimeError, a_optim_step sb)))).
Proof.
  intros net_ v_net mu wd n unrolled renorm trn_grad_w trn_grad_a val_grad_w alpha_grad
    alpha_backward zero_grad a_optim_step reset_ops sample_ops pms requires_grad xi s sb
    branch run.
  subst run. rewrite gated_step_run. fold (gradient_branch net_ v_net mu wd unrolled
    trn_grad_w trn_grad_a val_grad_w alpha_grad alpha_backward xi). fold branch.
  split.
  - intros e He. rewrite He. reflexivity.
  - intros Hb. rewrite Hb. split.
    + intros ->. reflexivity.
    + intros ->. split.
      * intros Hex. unfold renorm_and_update, bind.
        rewrite (renorm_before_error pms sb Hex). reflexivity.
      * intros Hin Hin' Hrg Hex.
        destruct (factors_in_range sb pms Hin) as [ks Hks].
        rewrite (renorm_and_update_run pms requires_grad a_optim_step reset_ops sb ks Hks).
        rewrite renorm_after_refused; [reflexivity | exact Hrg | | exact Hex].
        apply Forall2_same_length_lookup_2.
        { eapply Forall2_length, Hks. }
        intros i pm k Hpm _. apply k_at_in_range.
        eapply list.Forall_lookup_1; [exact Hin' | exact Hpm].
Qed.

Lemma gated_step_outcomes_witness :
  BinaryGateArchitect.step net_c net_c (Fin 0%R) (Fin 0%R) 2 false true
    no_grads no_grads no_grads alpha_grad_defined backward_noop
    no_update raise_first_logit no_update keep_sample [(0, 0)] (fun _ => true)
    (Fin 1%R) world_d
  = (Err RuntimeError, raise_first_logit world_d) /\
  BinaryGateArchitect.step net_c net_c (Fin 0%R) (Fin 0%R) 2 false true
    no_grads no_grads no_grads alpha_grad_defined backward_noop
    no_update raise_first_logit no_update keep_sample [(0, 0)] (fun _ => true)
    (Fin 1%R) world_f
  = (Err IndexError, world_f) /\
  BinaryGateArchitect.step net_c net_c (Fin 0%R) (Fin 0%R) 2 false true
    no_grads no_grads no_grads alpha_grad_defined backward_fails
    no_update raise_first_logit no_update keep_sample [(0, 0)] (fun _ => true)
    (Fin 1%R) world_d
  = (Err LossError, world_d).
Proof.
  split; [|split].
  - destruct (gated_step_outcomes net_c net_c (Fin 0%R) (Fin 0%R) 2 false true
                no_grads no_grads no_grads alpha_grad_defined backward_noop
                no_update raise_first_logit no_update keep_sample [(0, 0)]
                (fun _ => true) (Fin 1%R) world_d world_d) as [_ Hok].
    destruct (Hok eq_refl) as [_ Hrenorm].
    destruct (Hrenorm eq_refl) as [_ Hrefused].
    apply Hrefused.
    + constructor; [|constructor]. intros i Hi. simpl in *. set_unfold. lia.
    + constructor; [|constructor]. intros i Hi. simpl in *. set_unfold. lia.
    + intros pm _. reflexivity.
    + left. discriminate.
  - destruct (gated_step_outcomes net_c net_c (Fin 0%R) (Fin 0%R) 2 false true
                no_grads no_grads no_grads alpha_grad_defined backward_noop
                no_update raise_first_logit no_update keep_sample [(0, 0)]
                (fun _ => true) (Fin 1%R) world_f world_f) as [_ Hok].
    destruct (Hok eq_refl) as [_ Hrenorm].
    destruct (Hrenorm eq_refl) as [Hindex _].
    apply Hindex. left. exists 2. split; [simpl; set_unfold; lia | simpl; lia].
  - destruct (gated_step_outcomes net_c net_c (Fin 0%R) (Fin 0%R) 2 false true
                no_grads no_grads no_grads alpha_grad_defined backward_fails
                no_update raise_first_logit no_update keep_sample [(0, 0)]
                (fun _ => true) (Fin 1%R) world_d world_d) as [Herr _].
    apply Herr. reflexivity.
Defined.

(** ** The two estimators side by side *)

Lemma all_defined_fmap {A} (l : list (option A)) (xs : list A) :
  all_defined l = Some xs -> l = Some <$> xs.
Proof.
  revert xs. induction l as [|[x|] l IH]; intros xs H; simpl in H.
  - inversion H. reflexivity.
  - destruct (all_defined l) as [ys|]; [|discriminate].
    inversion H. rewrite (IH ys eq_refl). reflexivity.
  - discriminate.
Qed.

Lemma omap_Some_fmap {A} (l : list A) : omap (fun d => d) (Some <$> l) = l.
Proof.
  induction l as [|x l IH]; [reflexivity|].
  change (x :: omap (fun d => d) (Some <$> l) = x :: l). f_equal. exact IH.
Qed.

Lemma map_m_correction_defined c (ps ns : list tensor) s :
  map_m (BinaryGateArchitect.correction c) (zip (Some <$> ps) (Some <$> ns)) s
  = (Ok (PyTensor <$> zip_with (fun p n => t_mul_s (t_div_s (t_sub p n) (Fin 2%R)) c)
                        ps ns), s).
Proof.
  revert ns. induction ps as [|p ps IH]; intros ns; [reflexivity|].
  destruct ns as [|n ns]; [reflexivity|].
  rewrite !fmap_cons.
  change (zip (Some p :: (Some <$> ps)) (Some n :: (Some <$> ns)))
    with ((Some p, Some n) :: zip (Some <$> ps) (Some <$> ns)).
  simpl. unfold bind at 1. cbn [BinaryGateArchitect.correction ret].
  unfold bind at 1. rewrite IH. reflexivity.
Qed.

(** X10: on a network all of whose weights take part in the sampled
    subgraph, whenever [compute_hessian] of the DARTS class returns, the
    one of the gated class, given the same direction, returns the same
    tensors and ends in the same store. *)
Theorem compute_hessian_variants_agree :
  forall (net_ : net) trn_grad_a (dw : list tensor) (s s' : world) (hs : list tensor),
    weights_cg net_ = weights net_ ->
    DARTSArchitect.compute_hessian net_ trn_grad_a dw s = (Ok hs, s') ->
    BinaryGateArchitect.compute_hessian net_ trn_grad_a (Some <$> dw) s
    = (Ok (PyTensor <$> hs), s').
Proof.
  intros net_ trn_grad_a dw s s' hs Hcg Hrun.
  rewrite darts_compute_hessian_outcome in Hrun.
  rewrite gated_compute_hessian_outcome, omap_Some_fmap, Hcg.
  destruct dw as [|d0 ds]; [discriminate|].
  unfold darts_outcome in Hrun. unfold gated_outcome.
  destruct (trn_grad_a (stage1 _ _ _ s)) as [pos|e]; [|discriminate].
  destruct (all_defined pos) as [ps|] eqn:Hpos; [|discriminate].
  destruct (trn_grad_a (stage2 _ _ _ s)) as [neg|e]; [|discriminate].
  destruct (all_defined neg) as [ns|] eqn:Hneg; [|discriminate].
  inversion Hrun; subst hs s'.
  rewrite (all_defined_fmap pos ps Hpos), (all_defined_fmap neg ns Hneg).
  apply map_m_correction_defined.
Qed.

Lemma compute_hessian_variants_agree_witness :
  exists hs s',
    BinaryGateArchitect.compute_hessian net_a bilinear_grad_a
      (Some <$> [[Fin 3%R; Fin 4%R]]) world_a = (Ok (PyTensor <$> hs), s') /\
    length hs = 1.
Proof.
  eexists _, _. split.
  - apply (compute_hessian_variants_agree net_a bilinear_grad_a [[Fin 3%R; Fin 4%R]]
             world_a); [reflexivity|].
    rewrite darts_compute_hessian_outcome. unfold darts_outcome, bilinear_grad_a.
    cbn [all_defined]. reflexivity.
  - reflexivity.
Defined.

(** ** When [step] of the DARTS architect raises *)

(** X12: whenever [step] of the DARTS class raises, it has written no
    gradient field since [a_optim.zero_grad()], [a_optim.step()] has not
    run, the sampling state is as it was, every optimizer-state entry is
    kept, and the only tensors whose value may differ from the one after
    [a_optim.zero_grad()] are those of the virtual model and the weights
    of the real model. *)
Theorem darts_step_raises_frame :
  forall (net_ v_net : net) (mu wd : tnum) trn_grad_w trn_grad_a val_grad
         (zero_grad a_optim_step : world -> world) (xi : tnum) (s s' : world) (e : error),
    DARTSArchitect.step net_ v_net mu wd trn_grad_w trn_grad_a val_grad zero_grad
      a_optim_step xi s = (Err e, s') ->
    grad s' = grad (zero_grad s) /\ sops s' = sops (zero_grad s) /\
    ostate_kept (zero_grad s) s' /\
    forall l, l ∉ weights v_net ++ alphas v_net -> l ∉ weights net_ ->
      heap s' l = heap (zero_grad s) l.
Proof.
  intros net_ v_net mu wd trn_grad_w trn_grad_a val_grad zero_grad a_optim_step xi
    s s' e Hrun.
  unfold DARTSArchitect.step in Hrun.
  rewrite (bind_ok (modify zero_grad) _ s tt (zero_grad s) eq_refl) in Hrun.
  set (s0 := zero_grad s) in *.
  pose proof (darts_virtual_step_frame net_ v_net mu wd trn_grad_w xi s0) as Hfr.
  unfold exec in Hfr. unfold bind at 1 in Hrun.
  destruct (DARTSArchitect.virtual_step net_ v_net mu wd trn_grad_w xi s0)
    as [[[]|e1] s1]; cbn [snd] in Hfr; destruct Hfr as (Hh1 & Hg1 & Hs1 & Ho1).
  2:{ inversion Hrun; subst. auto. }
  unfold DARTSArchitect.unrolled_update in Hrun.
  rewrite bind_autograd_grad in Hrun.
  destruct (val_grad s1) as [vgs|e2]; [|inversion Hrun; subst; auto].
  destruct (all_defined vgs) as [vts|]; [|inversion Hrun; subst; auto].
  set (dw := drop (length (alphas v_net)) vts) in *.
  pose proof (darts_compute_hessian_store net_ trn_grad_a dw s1) as (Hg2 & Ho2 & Hs2).
  pose proof (fun l => darts_compute_hessian_frame net_ trn_grad_a dw s1 l) as Hh2.
  unfold exec in Hg2, Ho2, Hs2, Hh2. unfold bind at 1 in Hrun.
  destruct (DARTSArchitect.compute_hessian net_ trn_grad_a dw s1) as [[hs|e3] s2];
    cbn [snd] in Hg2, Ho2, Hs2, Hh2.
  - exfalso. unfold bind at 1 in Hrun.
    rewrite for_each_total in Hrun; [discriminate|].
    intros [[alpha da] h] s3. reflexivity.
  - inversion Hrun; subst e3 s2.
    split; [congruence|]. split; [congruence|]. split.
    + destruct Ho1 as [Hk1 Hk2]. split.
      * intros k d Hk. rewrite Ho2. apply Hk1, Hk.
      * intros k. rewrite Ho2. apply Hk2.
    + intros l Hv Hw. rewrite (Hh2 l Hw). apply Hh1, Hv.
Qed.

Lemma darts_step_raises_frame_witness :
  grad (DARTSArchitect.step net_b v_net_b (Fin 0%R) (Fin 0%R) failing_grad_a
          bilinear_grad_a val_grad_b no_update raise_first_logit (Fin 1%R) world_b).2
  = grad world_b.
Proof.
  apply (darts_step_raises_frame net_b v_net_b (Fin 0%R) (Fin 0%R) failing_grad_a
           bilinear_grad_a val_grad_b no_update raise_first_logit (Fin 1%R) world_b
           _ LossError).
  reflexivity.
Defined.

(** ** The unrolled branch of the gated architect, from end to end *)

(** X13: the unrolled branch of [step] of the gated class when every
    collaborator answers with defined gradients, the sampled virtual
    weights being distinct tensors separate from the real model: the
    branch returns in a store in which no tensor other than the sampled
    virtual weights and the sampled real weights differs from its value
    before the branch, each sampled real weight holds what the three
    passes of [compute_hessian] leave in it,
    [((w + eps*dw) - 2.*eps*dw) + eps*dw] for the direction [dw] paired
    with it, each sampled virtual weight holds the momentum-SGD value of
    its real weight, and each alpha carries the gradient [da - xi*h]; no
    other gradient field is written, the sampling state is untouched and
    no existing entry of the optimizer state has changed. *)
Theorem gated_unrolled_branch :
  forall (net_ v_net : net) (mu wd : tnum) trn_grad_w trn_grad_a val_grad_w alpha_grad
         alpha_backward (xi : tnum) (s : world) gs ts vgs dw das hs s2,
    let s1 := exec (BinaryGateArchitect.virtual_step net_ v_net mu wd trn_grad_w xi) s in
    NoDup (weights_cg net_) -> NoDup (alphas net_) -> NoDup (weights_cg v_net) ->
    (forall l, l ∈ weights_cg net_ -> l ∉ weights_cg v_net) ->
    trn_grad_w s = Ok gs -> all_defined gs = Some ts ->
    val_grad_w s1 = Ok vgs -> all_defined vgs = Some dw ->
    alpha_grad s1 = Some <$> das ->
    BinaryGateArchitect.compute_hessian net_ trn_grad_a (Some <$> dw) s1 = (Ok hs, s2) ->
    exists sb,
      gradient_branch net_ v_net mu wd true trn_grad_w trn_grad_a val_grad_w alpha_grad
        alpha_backward xi s = (Ok tt, sb) /\
      (forall l, l ∉ weights_cg v_net -> l ∉ weights_cg net_ -> heap sb l = heap s l) /\
      (forall i w, weights_cg net_ !! i = Some w ->
         heap sb w = after_passes (epsilon (concat dw)) (Some <$> dw) i (heap s w)) /\
      (forall i w vw g, weights_cg net_ !! i = Some w -> weights_cg v_net !! i = Some vw ->
         ts !! i = Some g ->
         heap sb vw = virtual_weight wd xi (momentum_term mu s w) (heap s w) g) /\
      (forall l, l ∉ alphas net_ -> grad sb l = grad s l) /\
      (forall i a, alphas net_ !! i = Some a ->
         grad sb a = match das !! i, hs !! i with
                     | Some da, Some h => Some (t_sub_py da (s_mul_py xi h))
                     | _, _ => grad s a
                     end) /\
      sops sb = sops s /\ ostate_kept s sb.
Proof.
  intros net_ v_net mu wd trn_grad_w trn_grad_a val_grad_w alpha_grad alpha_backward xi
    s gs ts vgs dw das hs s2 s1 Hndw Hnda Hndv Hdis Hgs Hts Hvgs Hdw Hda Hrun.
  destruct (gated_virtual_step_values net_ v_net mu wd trn_grad_w xi s gs ts
              Hgs Hts Hndv Hdis) as (s1' & Hvs & Hvals).
  assert (s1 = s1') as Hs1 by (subst s1; unfold exec; rewrite Hvs; reflexivity).
  pose proof (gated_virtual_step_frame net_ v_net mu wd trn_grad_w xi s) as Hfr.
  fold s1 in Hfr. destruct Hfr as (Hh1 & Hg1 & Hsop1 & Ho1).
  pose proof (gated_compute_hessian_store net_ trn_grad_a (Some <$> dw) s1) as Hsame.
  unfold exec in Hsame. rewrite Hrun in Hsame. cbn [snd] in Hsame.
  destruct Hsame as (Hg2 & Ho2 & Hsop2).
  assert (s2 = stage3 (weights_cg net_) (epsilon (concat dw)) (Some <$> dw) s1) as Hs2.
  { rewrite gated_compute_hessian_outcome, omap_Some_fmap in Hrun.
    destruct dw as [|d0 ds] eqn:Hdweq; [discriminate|].
    apply gated_outcome_ok in Hrun. exact Hrun. }
  assert (forall l, l ∉ weights_cg net_ -> heap s2 l = heap s1 l) as Hother.
  { intros l Hl. rewrite Hs2. apply stages_other, Hl. }
  destruct (assign_loop (fun da h => t_sub_py da (s_mul_py xi h))
              (fun '(a, d, h) => set_grad a (t_sub_py d (s_mul_py xi h)))
              (fun a d h s => eq_refl)
              (alphas net_) das hs s2 Hnda)
    as (sb & Hloop & Hh3 & Ho3 & Hsop3 & Hout & Hat).
  destruct (gated_assign_run xi das [] (alphas net_) hs s2) as [Hok _].
  unfold exec in Hok. rewrite Hloop, app_nil_r in Hok. cbn [snd] in Hok.
  exists sb. split.
  { unfold gradient_branch. cbn [negb].
    rewrite Hs1 in Hvgs, Hrun, Hda. rewrite (bind_ok _ _ _ _ _ Hvs).
    unfold BinaryGateArchitect.unrolled_update.
    rewrite bind_autograd_grad, Hvgs, Hdw, bind_call, Hda.
    rewrite (bind_ok _ _ _ _ _ Hrun). apply Hok. reflexivity. }
  split; [intros l Hl Hlw; rewrite Hh3, (Hother l Hlw); apply Hh1, Hl|]. split.
  { intros i w Hw. rewrite Hh3, Hs2.
    rewrite (stage3_after_passes _ _ _ _ i w Hndw Hw), Hh1; [reflexivity|].
    apply Hdis. eapply list_elem_of_lookup_2. exact Hw. }
  split.
  { intros i w vw g Hw Hvw Hg. rewrite Hh3, Hother, Hs1.
    - apply (Hvals i w vw g Hw Hvw Hg).
    - intros Hin. apply (Hdis vw Hin). eapply list_elem_of_lookup_2. exact Hvw. }
  split; [intros l Hl; rewrite (Hout l Hl); congruence|]. split.
  { intros i a Ha. rewrite (Hat i a Ha), Hg2, Hg1. reflexivity. }
  split; [congruence|].
  destruct Ho1 as [Hk1 Hk2]. split.
  - intros k d Hk. rewrite Ho3, Ho2. apply Hk1, Hk.
  - intros k. rewrite Ho3, Ho2. apply Hk2.
Qed.

Lemma epsilon_1_0 : epsilon [Fin 1%R; Fin 0%R] = Fin (1 / 100 / 1)%R.
Proof.
  apply epsilon_fin; [|lra].
  change [Fin 1%R; Fin 0%R] with (Fin <$> [1%R; 0%R]).
  rewrite t_norm_fin. f_equal. unfold Rsum. simpl.
  replace (1 * 1 + (0 * 0 + 0))%R with 1%R by lra. apply sqrt_1.
Qed.

Lemma gated_unrolled_branch_witness :
  exists sb,
    gradient_branch net_e v_net_e (Fin 0%R) (Fin 0%R) true grad_w_e trn_grad_a_undefined
      val_grad_both alpha_grad_defined backward_noop (Fin (1 / 10)%R) world_e
    = (Ok tt, sb) /\
    heap sb 0 = pass3 tnum_arith (Fin (1 / 100 / 1)%R) [Fin 1%R] [Fin 1%R] /\
    heap sb 1 = [Fin 2%R] /\ is_Some (grad sb 2) /\ grad sb 0 = None.
Proof.
  edestruct (gated_unrolled_branch net_e v_net_e (Fin 0%R) (Fin 0%R) grad_w_e
               trn_grad_a_undefined val_grad_both alpha_grad_defined backward_noop
               (Fin (1 / 10)%R) world_e)
    as (sb & Hrun & Hheap & Hreal & _ & Hout & Hgrad & _).
  - apply NoDup_singleton.
  - apply NoDup_singleton.
  - apply NoDup_singleton.
  - intros l Hl. simpl in *. set_unfold. lia.
  - reflexivity.
  - reflexivity.
  - reflexivity.
  - reflexivity.
  - change (alpha_grad_defined ?s) with (Some <$> [[Fin 1%R; Fin 0%R]]). reflexivity.
  - rewrite gated_compute_hessian_outcome. reflexivity.
  - exists sb. split; [exact Hrun|].
    split.
    { rewrite (Hreal 0 0 eq_refl). cbn [concat app]. rewrite epsilon_1_0. reflexivity. }
    split; [apply (Hheap 1); simpl; set_unfold; lia|].
    split; [rewrite (Hgrad 0 2 eq_refl); cbn; eauto|].
    rewrite (Hout 0); [reflexivity|]. simpl. set_unfold. lia.
Defined.

(** ** What the second renormalisation loop can touch *)

Lemma iadd_at_frame rg p i x s :
  let s' := exec (iadd_at rg p i x) s in
  same_but_heap s s' /\ (forall l, length (heap s' l) = length (heap s l)) /\
  (forall q j, (q = p -> j <> i) -> heap s' q !! j = heap s q !! j).
Proof.
  unfold exec, iadd_at, bind, read.
  destruct (heap s p !! i) as [v|] eqn:Hv; cbn [snd];
    [|unfold same_but_heap; auto].
  destruct (rg p); [unfold same_but_heap; cbn [raise snd]; auto|].
  unfold write. cbn [snd heap set_heap grad ostate sops].
  split; [unfold same_but_heap; auto|]. split.
  - intros l. destruct (decide (p = l)) as [->|Hne].
    + rewrite fn_lookup_insert. apply length_insert.
    + rewrite fn_lookup_insert_ne by exact Hne. reflexivity.
  - intros q j Hq. destruct (decide (p = q)) as [->|Hne].
    + rewrite fn_lookup_insert. apply list_lookup_insert_ne.
      intros ->. exact (Hq eq_refl eq_refl).
    + rewrite fn_lookup_insert_ne by exact Hne. reflexivity.
Qed.

Lemma shift_loop_frame rg p x idx s :
  let s' := exec (for_each (fun i => iadd_at rg p i x) idx) s in
  same_but_heap s s' /\ (forall l, length (heap s' l) = length (heap s l)) /\
  (forall q j, (q = p -> j ∉ idx) -> heap s' q !! j = heap s q !! j).
Proof.
  revert s. induction idx as [|i idx IH]; intros s; cbv zeta.
  { unfold exec, same_but_heap. simpl. auto. }
  pose proof (iadd_at_frame rg p i x s) as ((Hg1 & Ho1 & Hs1) & Hl1 & Hk1).
  unfold exec in *. cbn [for_each]. unfold bind.
  destruct (iadd_at rg p i x s) as [[[]|e] s1]; cbn [snd] in *.
  - destruct (IH s1) as ((Hg & Ho & Hs) & Hl & Hk).
    split; [unfold same_but_heap; rewrite Hg, Ho, Hs; auto|]. split.
    + intros l. rewrite Hl. apply Hl1.
    + intros q j Hq. rewrite Hk, Hk1; [reflexivity| |].
      * intros Hqp Hj. apply (Hq Hqp). subst j. left.
      * intros Hqp Hj. apply (Hq Hqp). right. exact Hj.
  - split; [unfold same_but_heap; auto|]. split; [exact Hl1|].
    intros q j Hq. apply Hk1. intros Hqp Hj. apply (Hq Hqp). subst j. left.
Qed.

Lemma renorm_shift_frame rg kprev pm s :
  let s' := exec (BinaryGateArchitect.renorm_shift rg (kprev, pm)) s in
  same_but_heap s s' /\ (forall l, length (heap s' l) = length (heap s l)) /\
  (forall q j, (q = pm.1 -> j ∉ sops s pm.2) -> heap s' q !! j = heap s q !! j).
Proof.
  cbv zeta.
  assert (BinaryGateArchitect.renorm_shift rg (kprev, pm) s
          = match k_at s pm with
            | Some k => for_each (fun i => iadd_at rg pm.1 i (log_shift k kprev))
                          (sops s pm.2) s
            | None => (Err IndexError, s)
            end) as Hrun.
  { unfold BinaryGateArchitect.renorm_shift. unfold bind at 1.
    rewrite renorm_factor_run. destruct (k_at s pm); reflexivity. }
  unfold exec. rewrite Hrun.
  destruct (k_at s pm) as [k|]; [|unfold same_but_heap; auto].
  apply shift_loop_frame.
Qed.

(** X14: whatever its outcome, and whether or not the alphas require
    grad, the second renormalisation loop writes no gradient field,
    optimizer state or sampling state, keeps the length of every tensor,
    and changes no entry of any tensor other than the sampled logits of
    the decision points. *)
Theorem renorm_after_frame :
  forall (pms : list (loc * nat)) (requires_grad : loc -> bool) (prev : list tnum)
         (s : world),
    same_but_heap s (exec (BinaryGateArchitect.renorm_after pms requires_grad prev) s) /\
    (forall l,
       length (heap (exec (BinaryGateArchitect.renorm_after pms requires_grad prev) s) l)
       = length (heap s l)) /\
    (forall q j, (forall pm, pm ∈ pms -> pm.1 = q -> j ∉ sops s pm.2) ->
       heap (exec (BinaryGateArchitect.renorm_after pms requires_grad prev) s) q !! j
       = heap s q !! j).
Proof.
  unfold BinaryGateArchitect.renorm_after. intros pms rg.
  induction pms as [|pm pms IH]; intros prev s.
  { destruct prev; unfold exec, same_but_heap; simpl; auto. }
  destruct prev as [|k prev]; [unfold exec, same_but_heap; simpl; auto|].
  change (zip (k :: prev) (pm :: pms)) with ((k, pm) :: zip prev pms).
  pose proof (renorm_shift_frame rg k pm s) as ((Hg1 & Ho1 & Hs1) & Hl1 & Hk1).
  unfold exec in *. cbn [for_each]. unfold bind.
  destruct (BinaryGateArchitect.renorm_shift rg (k, pm) s) as [[[]|e] s1]; cbn [snd] in *.
  - destruct (IH prev s1) as ((Hg & Ho & Hs) & Hl & Hk).
    split; [unfold same_but_heap; rewrite Hg, Ho, Hs; auto|]. split.
    + intros l. rewrite Hl. apply Hl1.
    + intros q j Hq. rewrite Hk, Hk1; [reflexivity| |].
      * intros Hqp. apply (Hq pm); [left | congruence].
      * intros pm' Hpm' Hqp. rewrite Hs1. apply (Hq pm'); [right|]; assumption.
  - split; [unfold same_but_heap; auto|]. split; [exact Hl1|].
    intros q j Hq. apply Hk1. intros Hqp. apply (Hq pm); [left | congruence].
Qed.

(** ** An alpha that the training loss does not use *)

Lemma all_defined_none {A} (l : list (option A)) : None ∈ l -> all_defined l = None.
Proof.
  induction l as [|[x|] l IH]; intros H.
  - apply elem_of_nil in H. contradiction.
  - apply elem_of_cons in H as [H|H]; [discriminate|].
    simpl. rewrite (IH H). reflexivity.
  - reflexivity.
Qed.

(** X15: in the DARTS class an alpha that the training loss does not use
    stops [compute_hessian]: [torch.autograd.grad] is called without
    [allow_unused], so the first gradient evaluation raises
    [RuntimeError], and the call ends with the real weights (distinct
    tensors) left at [w + eps*dw].  Given the same direction, on a
    network all of whose weights take part in the sampled subgraph, and
    with no alpha gradient defined at [w + eps*dw] and undefined at
    [w - eps*dw], the gated class returns, with [0] for every alpha
    unused at [w + eps*dw]. *)
Theorem darts_unused_alpha_raises :
  forall (net_ : net) trn_grad_a (dw : list tensor) (s : world)
         (pos neg : list (option tensor)),
    let c := epsilon (concat dw) in
    dw <> [] -> NoDup (weights net_) ->
    trn_grad_a (stage1 (weights net_) c (Some <$> dw) s) = Ok pos -> None ∈ pos ->
    (DARTSArchitect.compute_hessian net_ trn_grad_a dw s
       = (Err RuntimeError, stage1 (weights net_) c (Some <$> dw) s) /\
     forall i p d, weights net_ !! i = Some p -> dw !! i = Some d ->
       heap (stage1 (weights net_) c (Some <$> dw) s) p = t_add (heap s p) (s_mul c d)) /\
    (weights_cg net_ = weights net_ ->
     trn_grad_a (stage2 (weights net_) c (Some <$> dw) s) = Ok neg ->
     (forall pn, pn ∈ zip pos neg -> ~ mismatched pn) ->
     exists hs,
       BinaryGateArchitect.compute_hessian net_ trn_grad_a (Some <$> dw) s
         = (Ok hs, stage3 (weights net_) c (Some <$> dw) s) /\
       forall i n, pos !! i = Some None -> neg !! i = Some n ->
         hs !! i = Some (PyNum (Fin 0%R))).
Proof.
  intros net_ trn_grad_a dw s pos neg c Hne Hnd Hpos Hnone. split.
  - split.
    + rewrite darts_compute_hessian_outcome. destruct dw as [|d0 ds]; [congruence|].
      unfold darts_outcome. fold c. rewrite Hpos, (all_defined_none pos Hnone).
      reflexivity.
    + intros i p d Hp Hd. apply (stage1_at _ _ _ _ Hnd i p d Hp).
      rewrite list_lookup_fmap, Hd. reflexivity.
  - intros Hcg Hneg Hmis.
    exists (correction_value c <$> zip pos neg). split.
    + rewrite gated_compute_hessian_outcome, omap_Some_fmap, Hcg.
      destruct dw as [|d0 ds]; [congruence|].
      unfold gated_outcome. fold c. rewrite Hpos, Hneg.
      apply map_m_correction_ok. exact Hmis.
    + intros i n Hi Hn. rewrite list_lookup_fmap.
      rewrite (proj2 (lookup_zip_with_Some pair pos neg i (None, n)));
        [reflexivity|].
      exists None, n. auto.
Qed.

Lemma darts_unused_alpha_raises_witness :
  DARTSArchitect.compute_hessian net_a grad_a_unused [[Fin 3%R; Fin 4%R]] world_a
    = (Err RuntimeError,
       stage1 [0; 1] (epsilon [Fin 3%R; Fin 4%R]) [Some [Fin 3%R; Fin 4%R]] world_a) /\
  exists hs s',
    BinaryGateArchitect.compute_hessian net_a grad_a_unused
      (Some <$> [[Fin 3%R; Fin 4%R]]) world_a = (Ok hs, s') /\
    hs !! 1 = Some (PyNum (Fin 0%R)).
Proof.
  edestruct (darts_unused_alpha_raises net_a grad_a_unused [[Fin 3%R; Fin 4%R]] world_a)
    as [[Hraise _] Hgated].
  - discriminate.
  - exact nodup_0_1.
  - reflexivity.
  - right. left.
  - split; [exact Hraise|].
    destruct Hgated as (hs & Hrun & Hzero).
    + reflexivity.
    + reflexivity.
    + intros pn Hpn [p Hp]. subst pn.
      cbn in Hpn. set_unfold. destruct Hpn as [Hpn|[Hpn|[]]]; discriminate.
    + exists hs. eexists. split; [exact Hrun|].
      apply (Hzero 1 None); reflexivity.
Defined.
